(* ===== verification/_CoqProject ===== *)
-Q . S2P
Prelude.v
SqlLexer.v
SqlParser.v
Catalog.v
IndexSwap.v
QueryRunner.v
ImprovedIndexes.v
Pool.v
MigrationRunner.v
LedgerSpec.v
