(* ===== verification/Prelude.v ===== *)
(** * Verification of the migration [productSearchGinIndexes1679950645254]

    Source: [src/packages/medusa/src/migrations/1679950645254-product-domain-impoved-indexes.ts].

    ** The program and its parts

    The file is a TypeORM migration class with two methods.  [up] sends one
    SQL string (lines 5-21) to [queryRunner.query]; [down] sends another
    (lines 25-35).  All the behaviour therefore lives in how PostgreSQL
    reads and executes those strings, and in how the migration runner
    records the outcome.  The development models the chain

      source text --(lexer)--> tokens --(parser)--> statements
                  --(executor)--> catalog --(runner)--> ledger

    - [Prelude] (this file): the result/error monad with its notation in
      [result_scope], the monadic fold used to run statement lists, string
      helpers, the hint database [mig] (resolve) and [mig_rw] (rewrite)
      and the shared tactics.
    - [SqlLexer]: PostgreSQL's scanner (scan.l) for the part of the lexical
      grammar the scripts use: whitespace, [--] and nested [/* */]
      comments, identifiers (case folding, truncation to 63 bytes), quoted
      identifiers and string literals with doubled-quote escapes, numbers,
      operators (with the rule that cuts an operator at an embedded
      comment start and strips trailing [+]/[-]), single-character tokens.
      It is a Mealy machine ([step]) run by structural recursion over the
      input, so it is total; every token keeps its source text.
    - [SqlParser]: statements of the grammar the scripts use ([SET
      [LOCAL | SESSION] ... {TO | =} {value | DEFAULT}], [RESET], [DROP
      INDEX], [CREATE INDEX ... WHERE col IS [NOT] NULL]), the split
      of a script at [;] tokens, and PostgreSQL's rule that the whole
      query string is parsed before any statement runs.
    - [Catalog]: the database state (relations by name; the session's
      settings, their reset values, and the values [SET LOCAL] keeps aside
      for the end of the transaction, after guc.c's stack) and the
      execution of one statement with PostgreSQL's checks and notices
      ([IF EXISTS], [IF NOT EXISTS], wrong object type, missing table or
      column, unknown setting, invalid boolean); [commit_xact] ends a
      transaction, giving the settings of [SET LOCAL] their kept values.
    - [IndexSwap]: the pattern the scripts repeat, replacing a plain index
      on one column by a partial one ([DROP INDEX IF EXISTS old; CREATE
      INDEX IF NOT EXISTS new ... WHERE deleted_at IS NULL]) and its
      inverse, with the conditions under which a list of such swaps
      composes and undoes itself.
    - [QueryRunner]: TypeORM's [QueryRunner.query] on PostgreSQL as an
      interface (a [Class]) and its PostgreSQL instance: parse, then run
      all statements in one transaction and commit it; an error leaves
      the state as it was.
    - [ImprovedIndexes]: the migration class itself: the two SQL strings
      character for character, [up], [down], and the statement lists the
      source lines spell out.
    - [Pool]: a pool of connections behind the query runner (spec
      sections 4.1, 5, 9): one shared catalog, the session settings of
      each connection, a [QueryRunner] instance per connection.
    - [MigrationRunner]: the runner's ledger (applied/pending per unit) as
      a step relation, modelled from the spec (sections 3-5), since the
      runner is TypeORM library code and not part of this repository; the
      run of all pending units ([run_pending]) with its transaction mode
      ([run_migrations]: one transaction for the run, or one per unit);
      the identifier TypeORM parses from the class name.
    - [LedgerSpec]: the spec's abstract contract of a unit (apply on a
      pending unit, revert on an applied one, order violations and
      statement errors, spec sections 4.1 and 7) and the abstract machine
      over a history; the runner refines it, and the two reach the same
      ledgers.

    ** What is proved (see PROJECT.json for the list of claims)

    - Lexer: the token texts concatenate back to the input
      ([Scan.lex_roundtrip]); folded identifier names are at most 63
      bytes ([Scan.ident_name_length]).  The scanner is compositional ([Scan.lex_from_app]) and whitespace is
      invisible to the parser ([Grammar.significant_space]).
    - Parser and scripts: the [up] string does not parse: its two lines
      starting with [//] are not SQL comments and PostgreSQL reports a
      syntax error at [//]; the [down] string does not parse either:
      [DROP IF EXISTS name] lacks the object kind [INDEX].  Lines 5-7 alone decide the failure: whatever follows them, the
      string is rejected at [//]; written as SQL comments they are
      transparent, leaving the parse of any string that follows as it is.
    - Executor: the catalog well-formedness invariant (every index is on
      an existing table and existing columns) is preserved by every
      statement ([Exec.exec_stmts_wf]); guarded drops
      never fail on a missing index; a swap succeeds exactly when its
      old name is not a table and its table has the column, and swaps
      on distinct names compose ([Swap.exec_swaps_up],
      [Swap.roundtrip_rels]); the [up] statements are idempotent and
      leave [enable_nestloop] off; with the recreating lines of [down]
      they restore the original indexes but not the setting.  The text of
      [down] with [DROP INDEX IF EXISTS] parses to guarded drops and the
      recreates, and runs twice, the second time changing nothing.
    - Sessions: committed on one pooled connection, the [up] statements
      (the string with SQL comments) change the indexes for all
      connections and leave [enable_nestloop] off on that connection for
      every later query on it: line 8 is a plain [SET], not [SET LOCAL],
      and no [RESET] follows.
    - Migration and runner: [up] and [down] fail on every database and
      leave it unchanged; the ledger keeps the applied units a prefix of
      the history; no reachable ledger ever has this unit applied, and no
      later unit either; [migration:run] on a history containing it fails
      with the error at [//], rolling back the whole run or keeping the
      units before it, by transaction mode.  The revert [down] means can
      be run twice (its drops are guarded), against the spec's
      expectation that a second revert fails.  From every reachable
      ledger the history can be reverted to all pending without ever
      running this unit's failing [down].
    - Runner against the spec: a runner step is exactly a step of the
      spec's abstract machine ([LedgerSpec.runner_step_spec], both
      directions), so both reach the same ledgers
      ([LedgerSpec.reachable_spec]); when every [up] succeeds the run applies every unit
      ([Runner.run_pending_all_applied]); the identifier parsed from a
      class name is below 10^13 < 2^53, so JavaScript's [parseInt] is
      exact ([Runner.migration_timestamp_bound]).

    ** Bounds and fuel

    The lexer recurses on the input string, the parser on the token list
    and the executor on the statement list.  The only fuel is the number
    of rounds of [run_pending], set to the length of the history: each
    round applies one unit or stops, so that many rounds always finish
    the run ([run_pending_complete], [run_pending_blocked]).

    ** Not modelled

    Query planning and index storage; string forms other than standard
    ['...'] (E'', U&'', dollar quoting) and parameters ($1); statements
    outside the grammar above (reported as [Unsupported], never executed;
    one such statement rejects the whole string, so no theorem is proved
    of a string containing one); savepoints, [SET] inside functions, the
    contexts and flags of settings ([PGC_USERSET], [GUC_NO_RESET_ALL]);
    schemas and search_path; acquiring, releasing and resetting pooled
    connections, concurrency between them, and the runner's lock; a
    pooled query is its own transaction, so the settings of [SET LOCAL]
    end with the query rather than with TypeORM's migration transaction;
    a run with no transaction at all (TypeORM's [transaction: "none"]),
    in which the statements before a failing one would stay applied.
*)

From Stdlib Require Import String Ascii List Lia.
From stdpp Require Import base list.
Import ListNotations.

(** ** Results: the error monad of the development *)

Inductive result (E A : Type) : Type :=
| Ok (a : A)
| Err (e : E).
Arguments Ok {E A} a.
Arguments Err {E A} e.

Definition rbind {E A B} (m : result E A) (f : A -> result E B) : result E B :=
  match m with
  | Ok a => f a
  | Err e => Err e
  end.

Declare Scope result_scope.
Delimit Scope result_scope with result.
Notation "'let?' x ':=' m 'in' k" := (rbind m (fun x => k))
  (at level 10, x name, m at level 100, k at level 200) : result_scope.
Open Scope result_scope.

(** Monadic left fold: run [f] on each element, threading the state,
    stopping at the first error. *)
Fixpoint rfold {E A S} (f : S -> A -> result E S) (s : S) (xs : list A) : result E S :=
  match xs with
  | [] => Ok s
  | x :: xs' => let? s' := f s x in rfold f s' xs'
  end.

(** Monadic map: apply [f] to each element, stopping at the first error. *)
Fixpoint rmap {E A B} (f : A -> result E B) (xs : list A) : result E (list B) :=
  match xs with
  | [] => Ok []
  | x :: xs' => let? b := f x in let? bs := rmap f xs' in Ok (b :: bs)
  end.

Definition is_ok {E A} (r : result E A) : bool :=
  match r with Ok _ => true | Err _ => false end.

(** Membership of a string in a list, as the executable test the models use. *)
Definition mem (x : string) (l : list string) : bool := existsb (String.eqb x) l.

(** Character-level view of a string. *)
Definition chars (s : string) : list ascii := list_ascii_of_string s.

(** Replace every occurrence of [pat] (non-empty) in [s] by [rep], left to
    right; [skip] counts the characters of a match still to drop. *)
Fixpoint replace_all_aux (pat rep : string) (skip : nat) (s : string) : string :=
  match s with
  | EmptyString => EmptyString
  | String c s' =>
      match skip with
      | S k => replace_all_aux pat rep k s'
      | O => if String.prefix pat s
             then (rep ++ replace_all_aux pat rep (String.length pat - 1) s')%string
             else String c (replace_all_aux pat rep 0 s')
      end
  end.

Definition replace_all (pat rep s : string) : string := replace_all_aux pat rep 0 s.

(** ** Tactics *)

(** Invert an equation between results or between constructors and substitute. *)
Ltac invc H := inversion H; subst; clear H.

(** ** Generic lemmas *)

Create HintDb mig.
Create Rewrite HintDb mig_rw.

Lemma rbind_Ok {E A B} (a : A) (f : A -> result E B) : rbind (Ok a) f = f a.
Proof. reflexivity. Qed.

Lemma rbind_Err {E A B} (e : E) (f : A -> result E B) : rbind (Err e) f = Err e.
Proof. reflexivity. Qed.

Lemma rbind_Ok_r {E A} (m : result E A) : rbind m Ok = m.
Proof. by destruct m. Qed.

#[export] Hint Rewrite @rbind_Ok @rbind_Err @rbind_Ok_r : mig_rw.

Lemma rbind_eq_Ok {E A B} (m : result E A) (f : A -> result E B) b :
  rbind m f = Ok b <-> exists a, m = Ok a /\ f a = Ok b.
Proof. destruct m as [a|e]; simpl; split; [eauto | intros (? & [= ->] & ?) | done | by intros (? & ? & ?)]; done. Qed.

Lemma is_ok_true {E A} (r : result E A) : is_ok r = true <-> exists a, r = Ok a.
Proof. destruct r; simpl; split; [eauto | done | done | by intros []]. Qed.

Lemma rfold_app {E A S} (f : S -> A -> result E S) s xs ys :
  rfold f s (xs ++ ys) = let? s' := rfold f s xs in rfold f s' ys.
Proof.
  revert s. induction xs as [|x xs IH]; intros s; simpl; [done|].
  destruct (f s x); simpl; [apply IH | done].
Qed.

(** A property preserved by every successful step is preserved by the fold. *)
Lemma rfold_preserves {E A S} (P : S -> Prop) (f : S -> A -> result E S) :
  (forall s x s', P s -> f s x = Ok s' -> P s') ->
  forall xs s s', P s -> rfold f s xs = Ok s' -> P s'.
Proof.
  intros Hstep xs. induction xs as [|x xs IH]; intros s s' Hs H; simpl in H.
  - by injection H as <-.
  - apply rbind_eq_Ok in H as (s1 & H1 & H2). eauto.
Qed.

(** ** Strings *)

Local Open Scope string_scope.

Lemma append_nil_r (s : string) : (s ++ "")%string = s.
Proof. induction s; simpl; congruence. Qed.

Lemma append_assoc (s1 s2 s3 : string) : ((s1 ++ s2) ++ s3 = s1 ++ (s2 ++ s3))%string.
Proof. induction s1; simpl; congruence. Qed.

#[export] Hint Rewrite append_nil_r append_assoc : mig_rw.

Lemma mem_In x l : mem x l = true <-> In x l.
Proof.
  unfold mem. rewrite existsb_exists. split.
  - intros (y & Hy & E). apply String.eqb_eq in E. by subst.
  - intros H. exists x. split; [done | apply String.eqb_refl].
Qed.

Lemma chars_append s1 s2 : chars (s1 ++ s2) = (chars s1 ++ chars s2)%list.
Proof. induction s1; simpl; congruence. Qed.

Lemma length_append_str s1 s2 : String.length (s1 ++ s2) = String.length s1 + String.length s2.
Proof. induction s1; simpl; congruence. Qed.

Lemma substring_length n m s : String.length (substring n m s) <= m.
Proof.
  revert n m. induction s as [|c s IH]; intros [|n] [|m]; simpl; try lia.
  - specialize (IH 0 m). lia.
  - apply IH.
  - apply IH.
Qed.

(** Split the [rbind]s of a hypothesis [rbind m f = Ok b]. *)
Ltac rbind_inv :=
  repeat match goal with
  | H : rbind _ _ = Ok _ |- _ =>
      let a := fresh "a" in let Ha := fresh "Ha" in
      apply rbind_eq_Ok in H as (a & Ha & H)
  end.
