(* ===== verification/SqlLexer.v ===== *)
(** * The SQL scanner

    PostgreSQL's scanner (src/backend/parser/scan.l) for the lexical
    forms the migration's scripts use, as a Mealy machine: [step] reads
    one character in a state and emits the tokens it completes; [lex]
    runs it over the string by structural recursion and flushes the last
    token with [finish].  Every token keeps its source text, so the
    scanner's round trip ([lex_roundtrip]) is stated on the raw text, and
    the values PostgreSQL derives (folded identifier names, literal
    contents) are separate functions.  [run_from] is the machine over a
    prefix, and [lex_from_app] splits the scan of a concatenation. *)

From Stdlib Require Import String Ascii List Lia.
From stdpp Require Import base list.
From S2P Require Import Prelude.
Import ListNotations.

Module Scan.

Local Open Scope string_scope.
Local Open Scope list_scope.

(** ** Characters *)

Definition str1 (c : ascii) : string := String c EmptyString.
Definition snoc (s : string) (c : ascii) : string := (s ++ str1 c)%string.

(** The double quote, written by its code since it delimits Rocq strings. *)
Definition dquote : ascii := ascii_of_nat 34.
Definition squote : ascii := "'"%char.

Fixpoint in_str (c : ascii) (s : string) : bool :=
  match s with
  | EmptyString => false
  | String d s' => Ascii.eqb c d || in_str c s'
  end.

Definition in_range (lo hi : nat) (c : ascii) : bool :=
  Nat.leb lo (nat_of_ascii c) && Nat.leb (nat_of_ascii c) hi.

(** scan.l: [space [ \t\n\r\f\v]], [newline [\n\r]]. *)
Definition is_space (c : ascii) : bool :=
  Nat.eqb (nat_of_ascii c) 32 || in_range 9 13 c.
Definition is_newline (c : ascii) : bool :=
  Nat.eqb (nat_of_ascii c) 10 || Nat.eqb (nat_of_ascii c) 13.
Definition is_upper (c : ascii) : bool := in_range 65 90 c.
Definition is_digit (c : ascii) : bool := in_range 48 57 c.
(** scan.l: [ident_start [A-Za-z\200-\377_]], [ident_cont [A-Za-z\200-\377_0-9\$]]. *)
Definition is_ident_start (c : ascii) : bool :=
  is_upper c || in_range 97 122 c || Ascii.eqb c "_"%char || Nat.leb 128 (nat_of_ascii c).
Definition is_ident_cont (c : ascii) : bool :=
  is_ident_start c || is_digit c || Ascii.eqb c "$"%char.
(** scan.l: [op_chars [\~\!\@\#\^\&\|\`\?\+\-\*\/\%\<\>\=]]. *)
Definition is_op_char (c : ascii) : bool := in_str c "~!@#^&|`?+-*/%<>=".
(** The characters whose presence keeps a trailing [+]/[-] on an operator. *)
Definition is_op_special (c : ascii) : bool := in_str c "~!@#^&|`?%".
Definition is_plus_minus (c : ascii) : bool := in_str c "+-".

(** ** Tokens *)

Inductive unterminated := UBlockComment | UString | UQuotedIdent.

Inductive token :=
| TSpace (raw : string)
| TLineComment (raw : string)
| TBlockComment (raw : string)
| TIdent (raw : string)              (** identifier or keyword, as written *)
| TQuotedIdent (raw : string)        (** with its double quotes *)
| TString (raw : string)             (** with its single quotes *)
| TNumber (raw : string)
| TOp (raw : string)
| TSelf (c : ascii)                  (** any other single character *)
| TUnterminated (k : unterminated) (raw : string).

Definition token_text (t : token) : string :=
  match t with
  | TSpace s | TLineComment s | TBlockComment s | TIdent s | TQuotedIdent s
  | TString s | TNumber s | TOp s | TUnterminated _ s => s
  | TSelf c => str1 c
  end.

Definition flatten (ts : list token) : string :=
  fold_right (fun t s => (token_text t ++ s)%string) EmptyString ts.

(** Whitespace and comments separate tokens and are dropped by the parser. *)
Definition is_trivia (t : token) : bool :=
  match t with TSpace _ | TLineComment _ | TBlockComment _ => true | _ => false end.

(** ** Operators

    scan.l, rule [{operator}]: an operator ending in [+] or [-] loses its
    trailing [+]/[-] characters (down to one character) unless it contains
    one of [~!@#^&|`?%]; the characters put back are scanned again, each as
    an operator of its own.  [strip_pm] works on the reversed characters
    and returns the kept part (reversed) and the stripped tail. *)
Fixpoint strip_pm (r : list ascii) : list ascii * list ascii :=
  match r with
  | c :: (_ :: _) as rest =>
      if is_plus_minus c then let '(k, t) := strip_pm rest in (k, t ++ [c]) else (r, [])
  | _ => (r, [])
  end.

Definition flush_op (s : string) : list token :=
  if existsb is_op_special (chars s) then [TOp s]
  else let '(k, t) := strip_pm (rev (chars s)) in
       TOp (string_of_list_ascii (rev k)) :: map (fun c => TOp (str1 c)) t.

(** The text before an embedded comment start: nothing, or an operator. *)
Definition op_prefix (s : string) : list token :=
  match s with EmptyString => [] | _ => flush_op s end.

(** ** The machine *)

Inductive lstate :=
| LStart
| LSpace (acc : string)
| LIdent (acc : string)
| LNumber (acc : string) (dot : bool)
| LOp (init : string) (last : ascii)        (** operator text [init ++ last] *)
| LLine (acc : string)
| LBlock (depth : nat) (acc : string) (pend : option ascii)
| LStr (acc : string) (closing : bool)      (** [closing]: a quote was just read *)
| LQId (acc : string) (closing : bool).

(** The text read in the current state and not yet emitted. *)
Definition pending (st : lstate) : string :=
  match st with
  | LStart => EmptyString
  | LSpace a | LIdent a | LNumber a _ | LLine a | LBlock _ a _ | LStr a _ | LQId a _ => a
  | LOp i l => snoc i l
  end.

(** Reading [c] between tokens. *)
Definition start (c : ascii) : lstate * list token :=
  if is_space c then (LSpace (str1 c), [])
  else if is_ident_start c then (LIdent (str1 c), [])
  else if is_digit c then (LNumber (str1 c) false, [])
  else if Ascii.eqb c squote then (LStr (str1 c) false, [])
  else if Ascii.eqb c dquote then (LQId (str1 c) false, [])
  else if is_op_char c then (LOp EmptyString c, [])
  else (LStart, [TSelf c]).

(** Emit [ts], then read [c] between tokens. *)
Definition restart (ts : list token) (c : ascii) : lstate * list token :=
  let '(st, ts') := start c in (st, ts ++ ts').

Definition pend_of (c : ascii) : option ascii :=
  if Ascii.eqb c "*"%char || Ascii.eqb c "/"%char then Some c else None.

(** Inside a (nested) block comment: [/*] opens, [*/] closes. *)
Definition block_step (d : nat) (acc : string) (p : option ascii) (c : ascii)
    : lstate * list token :=
  let acc' := snoc acc c in
  match p with
  | Some pc =>
      if Ascii.eqb pc "*"%char && Ascii.eqb c "/"%char then
        match d with
        | O => (LStart, [TBlockComment acc'])
        | S d' => (LBlock d' acc' None, [])
        end
      else if Ascii.eqb pc "/"%char && Ascii.eqb c "*"%char then (LBlock (S d) acc' None, [])
      else (LBlock d acc' (pend_of c), [])
  | None => (LBlock d acc' (pend_of c), [])
  end.

Definition step (st : lstate) (c : ascii) : lstate * list token :=
  match st with
  | LStart => start c
  | LSpace a => if is_space c then (LSpace (snoc a c), []) else restart [TSpace a] c
  | LIdent a => if is_ident_cont c then (LIdent (snoc a c), []) else restart [TIdent a] c
  | LNumber a dot =>
      if is_digit c then (LNumber (snoc a c) dot, [])
      else if Ascii.eqb c "."%char && negb dot then (LNumber (snoc a c) true, [])
      else restart [TNumber a] c
  | LOp i l =>
      if is_op_char c then
        if Ascii.eqb l "-"%char && Ascii.eqb c "-"%char then (LLine "--", op_prefix i)
        else if Ascii.eqb l "/"%char && Ascii.eqb c "*"%char then (LBlock 0 "/*" None, op_prefix i)
        else (LOp (snoc i l) c, [])
      else restart (flush_op (snoc i l)) c
  | LLine a => if is_newline c then restart [TLineComment a] c else (LLine (snoc a c), [])
  | LBlock d a p => block_step d a p c
  | LStr a false => (LStr (snoc a c) (Ascii.eqb c squote), [])
  | LStr a true =>
      if Ascii.eqb c squote then (LStr (snoc a c) false, []) else restart [TString a] c
  | LQId a false => (LQId (snoc a c) (Ascii.eqb c dquote), [])
  | LQId a true =>
      if Ascii.eqb c dquote then (LQId (snoc a c) false, []) else restart [TQuotedIdent a] c
  end.

(** End of input: emit what is pending; an open comment or literal is an
    unterminated token (scan.l's "unterminated ..." errors). *)
Definition finish (st : lstate) : list token :=
  match st with
  | LStart => []
  | LSpace a => [TSpace a]
  | LIdent a => [TIdent a]
  | LNumber a _ => [TNumber a]
  | LOp i l => flush_op (snoc i l)
  | LLine a => [TLineComment a]
  | LBlock _ a _ => [TUnterminated UBlockComment a]
  | LStr a true => [TString a]
  | LStr a false => [TUnterminated UString a]
  | LQId a true => [TQuotedIdent a]
  | LQId a false => [TUnterminated UQuotedIdent a]
  end.

Fixpoint lex_from (st : lstate) (s : string) : list token :=
  match s with
  | EmptyString => finish st
  | String c s' => let '(st', out) := step st c in out ++ lex_from st' s'
  end.

Definition lex (s : string) : list token := lex_from LStart s.

(** The machine over a prefix, without the end of input: the state it
    reaches and the tokens it completes on the way. *)
Fixpoint run_from (st : lstate) (p : string) : lstate * list token :=
  match p with
  | EmptyString => (st, [])
  | String c p' =>
      let '(st1, out1) := step st c in
      let '(st2, out2) := run_from st1 p' in
      (st2, out1 ++ out2)
  end.

(** ** Token values *)

(** scan.l's [downcase_identifier]: ASCII upper case to lower case (bytes
    above 127 are left alone in a multi-byte encoding such as UTF8). *)
Definition downcase_char (c : ascii) : ascii :=
  if is_upper c then ascii_of_nat (nat_of_ascii c + 32) else c.

Fixpoint downcase (s : string) : string :=
  match s with
  | EmptyString => EmptyString
  | String c s' => String (downcase_char c) (downcase s')
  end.

(** NAMEDATALEN - 1: identifiers are truncated to 63 bytes. *)
Definition max_ident_len : nat := 63.
Definition truncate_identifier (s : string) : string := substring 0 max_ident_len s.

(** Undo the doubling of the quote character [q] inside a literal body. *)
Fixpoint undouble (q : ascii) (l : list ascii) : list ascii :=
  match l with
  | [] => []
  | c :: l' =>
      if Ascii.eqb c q then
        match l' with
        | d :: l'' => if Ascii.eqb d q then c :: undouble q l'' else c :: undouble q l'
        | [] => [c]
        end
      else c :: undouble q l'
  end.

(** The text between the first and the last character. *)
Definition body (raw : string) : list ascii := removelast (tail (chars raw)).

Definition ident_name (raw : string) : string := truncate_identifier (downcase raw).

(** A quoted identifier: its body with [""] undoubled, not folded; the
    empty one is an error ("zero-length delimited identifier"). *)
Definition quoted_ident_name (raw : string) : option string :=
  match undouble dquote (body raw) with
  | [] => None
  | l => Some (truncate_identifier (string_of_list_ascii l))
  end.

Definition string_value (raw : string) : string :=
  string_of_list_ascii (undouble squote (body raw)).

(** ** The round trip: the tokens spell the input *)

Lemma flatten_app ts1 ts2 : flatten (ts1 ++ ts2) = (flatten ts1 ++ flatten ts2)%string.
Proof. induction ts1 as [|t ts IH]; simpl; [done|]. by rewrite IH, append_assoc. Qed.

Lemma string_of_list_app l1 l2 :
  string_of_list_ascii (l1 ++ l2) = (string_of_list_ascii l1 ++ string_of_list_ascii l2)%string.
Proof. induction l1 as [|c l IH]; simpl; [done|]. by rewrite IH. Qed.

Lemma strip_pm_cons c d r :
  strip_pm (c :: d :: r) =
  if is_plus_minus c then let '(k, t) := strip_pm (d :: r) in (k, t ++ [c]) else (c :: d :: r, []).
Proof. reflexivity. Qed.

(** [strip_pm] splits the reversed operator: kept part, then stripped tail. *)
Lemma strip_pm_rev r k t : strip_pm r = (k, t) -> rev r = rev k ++ t.
Proof.
  revert k t. induction r as [|c r IH]; intros k t H; [by invc H|].
  destruct r as [|d r']; [by invc H; rewrite app_nil_r|].
  rewrite strip_pm_cons in H. destruct (is_plus_minus c); [|by invc H; rewrite app_nil_r].
  destruct (strip_pm (d :: r')) as [k' t'] eqn:E. invc H.
  change (rev (c :: d :: r')) with (rev (d :: r') ++ [c]).
  by rewrite (IH _ _ eq_refl), app_assoc.
Qed.

Lemma flatten_TOp_str1 t : flatten (map (fun c => TOp (str1 c)) t) = string_of_list_ascii t.
Proof. induction t as [|c t IH]; simpl; [done|]. by rewrite IH. Qed.

Lemma flatten_flush_op s : flatten (flush_op s) = s.
Proof.
  unfold flush_op. destruct (existsb _ _); simpl; [apply append_nil_r|].
  destruct (strip_pm (rev (chars s))) as [k t] eqn:E. apply strip_pm_rev in E.
  rewrite rev_involutive in E. simpl.
  rewrite flatten_TOp_str1, <- string_of_list_app, <- E. apply string_of_list_ascii_of_string.
Qed.

Lemma flatten_op_prefix s : flatten (op_prefix s) = s.
Proof. destruct s; [done|]. apply flatten_flush_op. Qed.

Create Rewrite HintDb lex_rw.
#[local] Hint Rewrite flatten_app flatten_flush_op flatten_op_prefix : lex_rw.

Lemma start_text c st out : start c = (st, out) -> (flatten out ++ pending st)%string = str1 c.
Proof. unfold start. intros H. repeat case_match; by invc H. Qed.

Lemma restart_text ts c st out :
  restart ts c = (st, out) -> (flatten out ++ pending st)%string = (flatten ts ++ str1 c)%string.
Proof.
  unfold restart. destruct (start c) as [st0 out0] eqn:E. intros H. invc H.
  by rewrite flatten_app, append_assoc, (start_text _ _ _ E).
Qed.

Lemma block_step_text d a p c st out :
  block_step d a p c = (st, out) -> (flatten out ++ pending st)%string = snoc a c.
Proof.
  unfold block_step. intros H. repeat case_match; invc H; simpl; autorewrite with lex_rw mig_rw; done.
Qed.

(** One step moves the read character from the input into the emitted
    tokens or the pending text. *)
Lemma step_text st c st' out :
  step st c = (st', out) -> (flatten out ++ pending st')%string = (pending st ++ str1 c)%string.
Proof.
  intros H. destruct st; simpl in H |- *;
    try (apply start_text in H; done);
    try (apply block_step_text in H; done);
    repeat case_match; simplify_eq/=;
    try (apply restart_text in H; rewrite H; simpl; autorewrite with lex_rw mig_rw; done);
    try done.
  all: repeat match goal with
         | E : (_ && _)%bool = true |- _ => apply andb_prop in E as [? ?]
         | E : Ascii.eqb _ _ = true |- _ => apply Ascii.eqb_eq in E; subst
         end.
  all: unfold snoc; autorewrite with lex_rw mig_rw; done.
Qed.

Lemma finish_text st : flatten (finish st) = pending st.
Proof.
  destruct st; simpl; autorewrite with lex_rw mig_rw; try done;
    match goal with b : bool |- _ => destruct b | _ => idtac end; simpl;
    autorewrite with lex_rw mig_rw; done.
Qed.

Lemma lex_from_text st s : flatten (lex_from st s) = (pending st ++ s)%string.
Proof.
  revert st. induction s as [|c s IH]; intros st; simpl.
  - by rewrite finish_text, append_nil_r.
  - destruct (step st c) as [st' out] eqn:E.
    rewrite flatten_app, IH, <- append_assoc, (step_text _ _ _ _ E), append_assoc. done.
Qed.

(** The scanner loses and invents no character: the token texts
    concatenate back to the input. *)
Lemma lex_roundtrip s : flatten (lex s) = s.
Proof. apply lex_from_text. Qed.

(** ** Running over a concatenation *)

(** The scanner is a Mealy machine: scanning [p ++ s] emits what the run
    over [p] completes, then scans [s] from the state [p] leaves. *)
Lemma lex_from_app st p s :
  lex_from st (p ++ s) = (run_from st p).2 ++ lex_from (run_from st p).1 s.
Proof.
  revert st. induction p as [|c p IH]; intros st; simpl; [done|].
  destruct (step st c) as [st1 out1]. rewrite IH.
  destruct (run_from st1 p) as [st2 out2]. simpl. by rewrite app_assoc.
Qed.

(** ** Identifier names *)

(** scan.l truncates every identifier to NAMEDATALEN - 1 bytes. *)
Lemma ident_name_length raw : String.length (ident_name raw) <= max_ident_len.
Proof. apply substring_length. Qed.

Lemma quoted_ident_name_length raw n :
  quoted_ident_name raw = Some n -> String.length n <= max_ident_len.
Proof. unfold quoted_ident_name. case_match; intros Hn; invc Hn. apply substring_length. Qed.

End Scan.
