(* ===== verification/SqlParser.v ===== *)
(** * The SQL parser

    The statements of PostgreSQL's grammar (src/backend/parser/gram.y)
    that the migration's scripts use, parsed from the scanner's tokens:
    [SET [LOCAL | SESSION] name {TO | =} {value | DEFAULT}], [RESET name],
    [RESET ALL], [DROP INDEX [IF EXISTS] name, ...] and
    [CREATE INDEX [IF NOT EXISTS] name ON table (col, ...) [WHERE col IS
    [NOT] NULL]].  A script is cut into statements at [;] tokens
    ([stmtmulti]); empty statements are allowed.  Every other statement is
    reported as [Unsupported] (it is valid PostgreSQL outside this model,
    or an error the model does not decide); [SyntaxError] is reported only
    where no PostgreSQL statement can continue.  PostgreSQL parses the
    whole query string before it runs any statement of it
    (postgres.c, [exec_simple_query]): [parse_script] returns either all
    statements or the first error.  The lemmas at the end say what the
    parse depends on: the significant tokens only, not the whitespace
    before them; and a script whose first significant token is an
    operator is a syntax error there, whatever follows. *)

From Stdlib Require Import String Ascii List Lia.
From stdpp Require Import base list.
From S2P Require Import Prelude SqlLexer.
Import ListNotations.
Import Scan.

Module Grammar.

Local Open Scope string_scope.
Local Open Scope list_scope.

(** ** Syntax *)

Inductive predicate :=
| PIsNull (col : string)
| PIsNotNull (col : string).

(** The value of [SET]: a value, or [DEFAULT] (the reset value). *)
Inductive set_value :=
| SetTo (v : string)
| SetDefault.

(** [SSet local name value] is [VariableSetStmt]: [SET [SESSION] name
    {TO | =} value] ([local] false), [SET LOCAL ...] ([local] true), and
    [RESET name], which gram.y reads as [SET name TO DEFAULT];
    [SResetAll] is [RESET ALL]. *)
Inductive stmt :=
| SSet (local : bool) (name : string) (value : set_value)
| SResetAll
| SDropIndex (if_exists : bool) (names : list string)
| SCreateIndex (if_not_exists : bool) (name : string) (table : string)
    (cols : list string) (pred : option predicate).

Inductive parse_error :=
| SyntaxError (near : token)        (** "syntax error at or near ..." *)
| SyntaxErrorAtEnd                  (** "syntax error at end of input" *)
| LexicalError (k : unterminated)   (** "unterminated ..." *)
| ZeroLengthIdent                   (** "zero-length delimited identifier" *)
| Unsupported (what : string).

(** ** Tokens as the grammar sees them *)

Definition is_kw (k : string) (t : token) : bool :=
  match t with TIdent raw => String.eqb (downcase raw) k | _ => false end.

Definition is_self (c : ascii) (t : token) : bool :=
  match t with TSelf d => Ascii.eqb c d | _ => false end.

Definition is_op (o : string) (t : token) : bool :=
  match t with TOp r => String.eqb r o | _ => false end.

Definition tok_error (t : token) : parse_error :=
  match t with TUnterminated k _ => LexicalError k | _ => SyntaxError t end.

(** Keywords that cannot be a [ColId]: the reserved and the
    type/function-name keywords of kwlist.h. *)
Definition not_colid : list string :=
  ["all"; "analyse"; "analyze"; "and"; "any"; "array"; "as"; "asc"; "asymmetric";
   "both"; "case"; "cast"; "check"; "collate"; "column"; "constraint"; "create";
   "current_catalog"; "current_date"; "current_role"; "current_time";
   "current_timestamp"; "current_user"; "default"; "deferrable"; "desc";
   "distinct"; "do"; "else"; "end"; "except"; "false"; "fetch"; "for"; "foreign";
   "from"; "grant"; "group"; "having"; "in"; "initially"; "intersect"; "into";
   "lateral"; "leading"; "limit"; "localtime"; "localtimestamp"; "not"; "null";
   "offset"; "on"; "only"; "or"; "order"; "placing"; "primary"; "references";
   "returning"; "select"; "session_user"; "some"; "symmetric"; "system_user";
   "table"; "then"; "to"; "trailing"; "true"; "union"; "unique"; "user"; "using";
   "variadic"; "when"; "where"; "window"; "with";
   "authorization"; "binary"; "collation"; "concurrently"; "cross";
   "current_schema"; "freeze"; "full"; "ilike"; "inner"; "is"; "isnull"; "join";
   "left"; "like"; "natural"; "notnull"; "outer"; "overlaps"; "right"; "similar";
   "tablesample"; "verbose"].

Definition is_kw_in (ks : list string) (t : token) : bool := existsb (fun k => is_kw k t) ks.

(** A [ColId]: an identifier that is not reserved, or a quoted identifier. *)
Definition colid (t : token) : result parse_error string :=
  match t with
  | TIdent raw => if is_kw_in not_colid t then Err (SyntaxError t) else Ok (ident_name raw)
  | TQuotedIdent raw =>
      match quoted_ident_name raw with Some n => Ok n | None => Err ZeroLengthIdent end
  | _ => Err (tok_error t)
  end.

(** [var_value]: a word (keywords [on], [true], ... included), a string or a number. *)
Definition var_value (t : token) : result parse_error string :=
  match t with
  | TIdent raw => Ok (ident_name raw)
  | TString raw => Ok (string_value raw)
  | TNumber raw => Ok raw
  | _ => Err (tok_error t)
  end.

Definition expect (p : token -> bool) (ts : list token) : result parse_error (list token) :=
  match ts with
  | [] => Err SyntaxErrorAtEnd
  | t :: ts' => if p t then Ok ts' else Err (tok_error t)
  end.

(** ** Statements *)

(** Words after [SET] (and after [SET LOCAL], [SET SESSION]) that start a
    form other than [generic_set]. *)
Definition set_forms : list string :=
  ["session"; "local"; "time"; "transaction"; "constraints"; "role"; "names";
   "schema"; "xml"; "catalog"; "authorization"; "characteristics"].

(** [generic_set]: [var_name {TO | =} {var_value | DEFAULT}]. *)
Definition parse_generic_set (local : bool) (ts : list token) : result parse_error stmt :=
  match ts with
  | [] => Err SyntaxErrorAtEnd
  | n :: rest =>
      if is_kw_in set_forms n then Err (Unsupported "SET form") else
      let? name := colid n in
      match rest with
      | [] => Err SyntaxErrorAtEnd
      | t :: rest1 =>
          if is_kw "to" t || is_op "=" t then
            match rest1 with
            | [] => Err SyntaxErrorAtEnd
            | v :: rest2 =>
                if is_kw "default" v then
                  match rest2 with
                  | [] => Ok (SSet local name SetDefault)
                  | u :: _ => Err (tok_error u)
                  end
                else
                let? val := var_value v in
                match rest2 with
                | [] => Ok (SSet local name (SetTo val))
                | u :: _ => if is_self ","%char u then Err (Unsupported "SET list") else Err (tok_error u)
                end
            end
          else if is_self "."%char t || is_kw "from" t then Err (Unsupported "SET form")
          else Err (tok_error t)
      end
  end.

(** After [SET]: [LOCAL] or [SESSION], then the setting. *)
Definition parse_set (ts : list token) : result parse_error stmt :=
  match ts with
  | [] => Err SyntaxErrorAtEnd
  | t :: rest =>
      if is_kw "local" t then parse_generic_set true rest
      else if is_kw "session" t then parse_generic_set false rest
      else parse_generic_set false ts
  end.

(** After [RESET]: [ALL], or a setting's name ([generic_reset]); [RESET
    TIME ZONE], [RESET TRANSACTION ...], [RESET SESSION AUTHORIZATION] are
    other statements. *)
Definition parse_reset (ts : list token) : result parse_error stmt :=
  match ts with
  | [] => Err SyntaxErrorAtEnd
  | t :: rest =>
      if is_kw "all" t then
        match rest with [] => Ok SResetAll | u :: _ => Err (tok_error u) end
      else if is_kw_in ["time"; "transaction"; "session"] t then Err (Unsupported "RESET form")
      else
      let? name := colid t in
      match rest with
      | [] => Ok (SSet false name SetDefault)
      | u :: _ => if is_self "."%char u then Err (Unsupported "RESET form") else Err (tok_error u)
      end
  end.

(** [any_name_list] up to the end of the statement. *)
Fixpoint parse_names (ts : list token) : result parse_error (list string) :=
  match ts with
  | [] => Err SyntaxErrorAtEnd
  | t :: rest =>
      let? n := colid t in
      match rest with
      | [] => Ok [n]
      | u :: rest' =>
          if is_self ","%char u then let? ns := parse_names rest' in Ok (n :: ns)
          else if is_self "."%char u || is_kw_in ["cascade"; "restrict"] u
          then Err (Unsupported "DROP INDEX form")
          else Err (tok_error u)
      end
  end.

(** After [DROP INDEX]. *)
Definition parse_drop_index (ts : list token) : result parse_error stmt :=
  match ts with
  | t :: u :: rest =>
      if is_kw "concurrently" t then Err (Unsupported "DROP INDEX CONCURRENTLY")
      else if is_kw "if" t && is_kw "exists" u then
        let? ns := parse_names rest in Ok (SDropIndex true ns)
      else let? ns := parse_names ts in Ok (SDropIndex false ns)
  | _ => let? ns := parse_names ts in Ok (SDropIndex false ns)
  end.

(** The object kinds that may follow [DROP] (gram.y, [DropStmt] and the
    other [DROP ...] rules). *)
Definition drop_kinds : list string :=
  ["access"; "aggregate"; "cast"; "collation"; "conversion"; "database"; "domain";
   "event"; "extension"; "foreign"; "function"; "group"; "language"; "materialized";
   "operator"; "owned"; "policy"; "procedure"; "publication"; "role"; "routine";
   "rule"; "schema"; "sequence"; "server"; "statistics"; "subscription"; "table";
   "tablespace"; "text"; "transform"; "trigger"; "type"; "user"; "view"].

(** After [DROP]. *)
Definition parse_drop (ts : list token) : result parse_error stmt :=
  match ts with
  | [] => Err SyntaxErrorAtEnd
  | t :: rest =>
      if is_kw "index" t then parse_drop_index rest
      else if is_kw_in drop_kinds t then Err (Unsupported "DROP of another kind")
      else Err (tok_error t)
  end.

(** The index columns: [col, ...)], returning the tokens after [)]. *)
Fixpoint parse_cols (ts : list token) : result parse_error (list string * list token) :=
  match ts with
  | [] => Err SyntaxErrorAtEnd
  | t :: rest =>
      let? c := colid t in
      match rest with
      | [] => Err SyntaxErrorAtEnd
      | u :: rest' =>
          if is_self ")"%char u then Ok ([c], rest')
          else if is_self ","%char u then let? r := parse_cols rest' in Ok (c :: fst r, snd r)
          else Err (Unsupported "index element")
      end
  end.

(** [WHERE col IS [NOT] NULL]. *)
Definition parse_pred (ts : list token) : result parse_error predicate :=
  match ts with
  | [c; i; n] =>
      if is_kw "is" i && is_kw "null" n then let? col := colid c in Ok (PIsNull col)
      else Err (Unsupported "index predicate")
  | [c; i; n; n'] =>
      if is_kw "is" i && is_kw "not" n && is_kw "null" n' then let? col := colid c in Ok (PIsNotNull col)
      else Err (Unsupported "index predicate")
  | [] => Err SyntaxErrorAtEnd
  | _ => Err (Unsupported "index predicate")
  end.

(** After the index name: [ON table (cols) [WHERE pred]]. *)
Definition parse_index_body (ine : bool) (name : string) (ts : list token) : result parse_error stmt :=
  let? ts1 := expect (is_kw "on") ts in
  match ts1 with
  | [] => Err SyntaxErrorAtEnd
  | t :: ts2 =>
      if is_kw "only" t then Err (Unsupported "ON ONLY") else
      let? tbl := colid t in
      match ts2 with
      | [] => Err SyntaxErrorAtEnd
      | u :: ts3 =>
          if is_self "("%char u then
            let? r := parse_cols ts3 in
            match snd r with
            | [] => Ok (SCreateIndex ine name tbl (fst r) None)
            | w :: ts4 =>
                if is_kw "where" w then
                  let? p := parse_pred ts4 in Ok (SCreateIndex ine name tbl (fst r) (Some p))
                else if is_kw_in ["include"; "with"; "tablespace"; "nulls"] w
                then Err (Unsupported "index option")
                else Err (tok_error w)
            end
          else if is_self "."%char u || is_kw "using" u then Err (Unsupported "index form")
          else Err (tok_error u)
      end
  end.

(** After [CREATE INDEX]. *)
Definition parse_create_index (ts : list token) : result parse_error stmt :=
  match ts with
  | [] => Err SyntaxErrorAtEnd
  | t :: rest =>
      if is_kw "concurrently" t then Err (Unsupported "CREATE INDEX CONCURRENTLY")
      else if is_kw "on" t then Err (Unsupported "index without a name")
      else match rest with
           | u :: v :: n :: rest' =>
               if is_kw "if" t && is_kw "not" u && is_kw "exists" v then
                 let? name := colid n in parse_index_body true name rest'
               else let? name := colid t in parse_index_body false name rest
           | _ => let? name := colid t in parse_index_body false name rest
           end
  end.

(** After [CREATE]. *)
Definition parse_create (ts : list token) : result parse_error stmt :=
  match ts with
  | [] => Err SyntaxErrorAtEnd
  | t :: rest =>
      if is_kw "index" t then parse_create_index rest
      else match t with
           | TIdent _ => Err (Unsupported "CREATE of another kind")
           | _ => Err (tok_error t)
           end
  end.

Definition parse_stmt (ts : list token) : result parse_error stmt :=
  match ts with
  | [] => Err SyntaxErrorAtEnd
  | t :: rest =>
      if is_kw "set" t then parse_set rest
      else if is_kw "reset" t then parse_reset rest
      else if is_kw "drop" t then parse_drop rest
      else if is_kw "create" t then parse_create rest
      else match t with
           | TIdent raw => Err (Unsupported (downcase raw))
           | TSelf c => if Ascii.eqb c "("%char then Err (Unsupported "(") else Err (tok_error t)
           | _ => Err (tok_error t)
           end
  end.

(** ** Scripts *)

(** Cut the tokens at [;]; [cur] holds the current statement, reversed. *)
Fixpoint split_stmts (ts : list token) (cur : list token) : list (list token) :=
  match ts with
  | [] => [rev cur]
  | t :: ts' => if is_self ";"%char t then rev cur :: split_stmts ts' [] else split_stmts ts' (t :: cur)
  end.

Definition significant (ts : list token) : list token := List.filter (fun t => negb (is_trivia t)) ts.

Definition nonempty_stmts (ls : list (list token)) : list (list token) :=
  List.filter (fun l => match l with [] => false | _ => true end) ls.

Definition parse_script (s : string) : result parse_error (list stmt) :=
  rmap parse_stmt (nonempty_stmts (split_stmts (significant (lex s)) [])).

(** ** What the parser sees of a script *)

Lemma significant_app xs ys : significant (xs ++ ys) = significant xs ++ significant ys.
Proof. unfold significant. apply List.filter_app. Qed.

(** The parse depends on the significant tokens only. *)
Lemma parse_script_significant s1 s2 :
  significant (lex s1) = significant (lex s2) -> parse_script s1 = parse_script s2.
Proof. unfold parse_script. by intros ->. Qed.

(** Whitespace read so far is invisible: from any whitespace state the
    significant tokens are the same. *)
Lemma significant_space_any a b s :
  significant (lex_from (LSpace a) s) = significant (lex_from (LSpace b) s).
Proof.
  revert a b. induction s as [|c s IH]; intros a b; simpl; [done|].
  destruct (is_space c); [apply IH|].
  unfold restart. destruct (start c) as [st ts]. reflexivity.
Qed.

Lemma significant_space a s : significant (lex_from (LSpace a) s) = significant (lex s).
Proof.
  destruct s as [|c s]; [done|]. unfold lex. simpl. unfold restart, start.
  destruct (is_space c); simpl; [apply significant_space_any|].
  repeat case_match; simplify_eq; reflexivity.
Qed.

(** The first statement of a script starts with its first token. *)
Lemma split_stmts_head ts cur : exists l ls, split_stmts ts cur = (rev cur ++ l) :: ls.
Proof.
  revert cur. induction ts as [|t ts IH]; intros cur; simpl.
  - exists [], []. by rewrite app_nil_r.
  - destruct (is_self ";"%char t).
    + exists [], (split_stmts ts []). by rewrite app_nil_r.
    + destruct (IH (t :: cur)) as (l & ls & ->). exists (t :: l), ls. simpl. by rewrite <- app_assoc.
Qed.

(** A script whose first significant token is an operator is a syntax
    error at that operator, whatever follows. *)
Lemma parse_script_op_first s o ts :
  significant (lex s) = TOp o :: ts -> parse_script s = Err (SyntaxError (TOp o)).
Proof.
  unfold parse_script. intros ->. simpl.
  destruct (split_stmts_head ts [TOp o]) as (l & ls & ->). reflexivity.
Qed.

End Grammar.
