(* ===== verification/Catalog.v ===== *)
(** * The database the scripts run against

    The part of PostgreSQL's state the statements read and write: the
    relations of the schema by name (tables with their columns, indexes
    with their table, columns and predicate; tables and indexes share one
    name space, pg_class) and the session's settings.  [exec_stmt] runs
    one parsed statement with the checks PostgreSQL makes, in the order it
    makes them (utility.c, indexcmds.c [DefineIndex], index.c
    [index_create], tablecmds.c [RemoveRelations], guc.c [set_config_option],
    bool.c [parse_bool_with_len]); a statement either succeeds with a new
    state or fails with an error and no state.  [SET LOCAL] keeps the
    value it replaces aside in [locals] and [commit_xact] gives it back at
    the end of the transaction (guc.c [push_old_value], [AtEOXact_GUC]);
    [RESET] and [DEFAULT] take the reset value. *)

From Stdlib Require Import String Ascii List Lia.
From stdpp Require Import base list gmap strings.
From S2P Require Import Prelude SqlLexer SqlParser.
Import ListNotations.
Import Scan Grammar.

Module Exec.

Local Open Scope string_scope.
Local Open Scope list_scope.
#[local] Set Warnings "-clear-no-such-hyp".

(** ** State *)

Record index_def := mk_index {
  idx_table : string;
  idx_cols : list string;
  idx_pred : option predicate
}.

Inductive relation :=
| RTable (cols : list string)
| RIndex (d : index_def).

Inductive guc_value :=
| GBool (b : bool)
| GOther (v : string).      (** settings of other types: values not checked *)

(** [gucs] are the session's current settings; [resets] their reset values
    (what [RESET] and [DEFAULT] restore: the server's configuration);
    [locals] holds, for each setting a [SET LOCAL] of the open transaction
    changed, the value it gets back when the transaction ends (guc.c's
    stack of [push_old_value]: the prior or the masked value). *)
Record db := mk_db {
  rels : gmap string relation;
  gucs : gmap string guc_value;
  resets : gmap string guc_value;
  locals : gmap string guc_value
}.

Inductive exec_error :=
| UndefinedObject (name : string)        (** index "n" does not exist *)
| UndefinedTable (name : string)         (** relation "t" does not exist *)
| UndefinedColumn (name : string)        (** column "c" does not exist *)
| WrongObjectType (name : string)        (** "n" is not an index / a table *)
| DuplicateRelation (name : string)      (** relation "n" already exists *)
| UnrecognizedParameter (name : string)
| InvalidValue (name value : string).

Definition set_rels (st : db) (r : gmap string relation) : db :=
  mk_db r (gucs st) (resets st) (locals st).

(** ** SET *)

(** [parse_bool_with_len]: a non-empty prefix of [true], [false], [yes],
    [no], at least two letters of [on] / [off], or [1] / [0], in any case. *)
Definition parse_bool (v : string) : option bool :=
  let w := downcase v in
  match w with
  | EmptyString => None
  | String c _ =>
      if Ascii.eqb c "t"%char then (if String.prefix w "true" then Some true else None)
      else if Ascii.eqb c "f"%char then (if String.prefix w "false" then Some false else None)
      else if Ascii.eqb c "y"%char then (if String.prefix w "yes" then Some true else None)
      else if Ascii.eqb c "n"%char then (if String.prefix w "no" then Some false else None)
      else if Ascii.eqb c "o"%char then
        (if String.eqb w "on" then Some true
         else if Nat.leb 2 (String.length w) && String.prefix w "off" then Some false
         else None)
      else if String.eqb w "1" then Some true
      else if String.eqb w "0" then Some false
      else None
  end.

(** [parse_and_validate_value]: a boolean setting takes what [parse_bool]
    accepts; values of settings of other types are not checked. *)
Definition check_value (n : string) (cur : guc_value) (v : string) : result exec_error guc_value :=
  match cur with
  | GBool _ => match parse_bool v with Some b => Ok (GBool b) | None => Err (InvalidValue n v) end
  | GOther _ => Ok (GOther v)
  end.

(** [set_config_option] with [GUC_ACTION_SET] ([local] false) or
    [GUC_ACTION_LOCAL] ([local] true), [cur] being the current value.  The
    first [SET LOCAL] of a setting in a transaction keeps [cur] aside for
    the end of the transaction (the value at its start, or the value of an
    earlier [SET]: [GUC_LOCAL] and [GUC_SET_LOCAL] of [push_old_value]);
    later ones keep what was kept.  A [SET] discards it ([GUC_SET]), so
    its value outlives the commit. *)
Definition assign_guc (local : bool) (n : string) (cur v : guc_value) (st : db) : db :=
  mk_db (rels st) (<[n := v]> (gucs st)) (resets st)
    (if local then
       match locals st !! n with
       | Some _ => locals st
       | None => <[n := cur]> (locals st)
       end
     else delete n (locals st)).

(** [ExecSetVariableStmt] for [VAR_SET_VALUE], [VAR_SET_DEFAULT] and
    [VAR_RESET]: setting names are case-insensitive; [DEFAULT] is the
    reset value. *)
Definition exec_set (local : bool) (name : string) (value : set_value) (st : db) : result exec_error db :=
  let n := downcase name in
  match gucs st !! n with
  | None => Err (UnrecognizedParameter n)
  | Some cur =>
      let? v := match value with
                | SetTo s => check_value n cur s
                | SetDefault => Ok (default cur (resets st !! n))
                end in
      Ok (assign_guc local n cur v st)
  end.

(** [RESET ALL] ([ResetAllOptions]): every setting to its reset value, as
    a plain [SET] of each. *)
Definition exec_reset_all (st : db) : db :=
  mk_db (rels st) (map_imap (fun n cur => Some (default cur (resets st !! n))) (gucs st))
    (resets st) ∅.

(** The commit of the transaction ([AtEOXact_GUC]): the settings changed
    by [SET LOCAL] get back the values kept aside, the others keep their
    values. *)
Definition commit_xact (st : db) : db :=
  mk_db (rels st) (locals st ∪ gucs st) (resets st) ∅.

(** ** DROP INDEX *)

(** [RemoveRelations] looks every name up before it drops anything: a
    missing index is skipped with [IF EXISTS] and an error without it; a
    relation of another kind is an error. *)
Definition check_drop (if_exists : bool) (st : db) (n : string) : result exec_error (list string) :=
  match rels st !! n with
  | None => if if_exists then Ok [] else Err (UndefinedObject n)
  | Some (RIndex _) => Ok [n]
  | Some (RTable _) => Err (WrongObjectType n)
  end.

Definition exec_drop (if_exists : bool) (names : list string) (st : db) : result exec_error db :=
  let? found := rmap (check_drop if_exists st) names in
  Ok (set_rels st (fold_right delete (rels st) (concat found))).

(** ** CREATE INDEX *)

Definition pred_col (p : predicate) : string :=
  match p with PIsNull c | PIsNotNull c => c end.

Definition pred_cols (p : option predicate) : list string :=
  match p with Some q => [pred_col q] | None => [] end.

Definition missing_col (tcols cols : list string) : option string :=
  find (fun c => negb (mem c tcols)) cols.

(** The table must exist and be a table; the predicate's column, then the
    indexed columns, must be columns of it; then the name is checked: with
    [IF NOT EXISTS] an existing relation of that name makes the statement
    a no-op (a notice), without it an error. *)
Definition exec_create (if_not_exists : bool) (name table : string) (cols : list string)
    (pred : option predicate) (st : db) : result exec_error db :=
  match rels st !! table with
  | None => Err (UndefinedTable table)
  | Some (RIndex _) => Err (WrongObjectType table)
  | Some (RTable tcols) =>
      match missing_col tcols (pred_cols pred) with
      | Some c => Err (UndefinedColumn c)
      | None =>
          match missing_col tcols cols with
          | Some c => Err (UndefinedColumn c)
          | None =>
              match rels st !! name with
              | Some _ => if if_not_exists then Ok st else Err (DuplicateRelation name)
              | None => Ok (set_rels st (<[name := RIndex (mk_index table cols pred)]> (rels st)))
              end
          end
      end
  end.

(** ** Statements *)

Definition exec_stmt (st : db) (s : stmt) : result exec_error db :=
  match s with
  | SSet l n v => exec_set l n v st
  | SResetAll => Ok (exec_reset_all st)
  | SDropIndex ie ns => exec_drop ie ns st
  | SCreateIndex ine n t cols p => exec_create ine n t cols p st
  end.

Definition exec_stmts (st : db) (ss : list stmt) : result exec_error db :=
  rfold exec_stmt st ss.

(** ** The catalog invariant *)

(** Every index is on an existing table, and its columns and the column of
    its predicate are columns of that table. *)
Definition index_ok (r : gmap string relation) (d : index_def) : Prop :=
  exists tcols, r !! idx_table d = Some (RTable tcols) /\
    Forall (fun c => In c tcols) (idx_cols d ++ pred_cols (idx_pred d)).

Definition wf (st : db) : Prop :=
  forall n d, rels st !! n = Some (RIndex d) -> index_ok (rels st) d.

(** The invariant as a test. *)
Definition index_okb (r : gmap string relation) (d : index_def) : bool :=
  match r !! idx_table d with
  | Some (RTable tcols) => forallb (fun c => mem c tcols) (idx_cols d ++ pred_cols (idx_pred d))
  | _ => false
  end.

Definition wfb (st : db) : bool :=
  forallb (fun kr => match kr.2 with RIndex d => index_okb (rels st) d | RTable _ => true end)
    (map_to_list (rels st)).

(** ** Lemmas on the operations *)

Lemma set_rels_id st : set_rels st (rels st) = st.
Proof. by destruct st. Qed.

Lemma missing_col_None tcols cols :
  missing_col tcols cols = None <-> Forall (fun c => In c tcols) cols.
Proof.
  unfold missing_col. induction cols as [|c cols IH]; simpl; [split; auto|].
  rewrite Forall_cons_iff, <- IH, <- mem_In.
  destruct (mem c tcols); simpl; intuition congruence.
Qed.

(** [CREATE INDEX] succeeds exactly when the table exists with the
    columns, and then either adds the index or, with [IF NOT EXISTS] and
    the name taken, changes nothing. *)
Lemma exec_create_Ok ine n t cols p st st' :
  exec_create ine n t cols p st = Ok st' <->
  exists tcols, rels st !! t = Some (RTable tcols) /\
    Forall (fun c => In c tcols) (pred_cols p ++ cols) /\
    ((rels st !! n = None /\ st' = set_rels st (<[n := RIndex (mk_index t cols p)]> (rels st))) \/
     (ine = true /\ is_Some (rels st !! n) /\ st' = st)).
Proof.
  unfold exec_create. setoid_rewrite Forall_app.
  destruct (rels st !! t) as [[tcols|d]|]; [|split; [done|naive_solver]..].
  destruct (missing_col tcols (pred_cols p)) as [c|] eqn:Hp;
    [|destruct (missing_col tcols cols) as [c|] eqn:Hc].
  - split; [done|]. intros (? & [= <-] & [Hf _] & _). apply missing_col_None in Hf. congruence.
  - split; [done|]. intros (? & [= <-] & [_ Hf] & _). apply missing_col_None in Hf. congruence.
  - apply missing_col_None in Hp, Hc.
    destruct (rels st !! n) as [r|] eqn:Hn; [destruct ine|]; split; naive_solver.
Qed.

(** Deleting a list of names. *)
Lemma lookup_fold_delete (r : gmap string relation) ns k :
  fold_right delete r ns !! k = if mem k ns then None else r !! k.
Proof.
  induction ns as [|n ns IH]; simpl; [done|].
  destruct (String.eqb_spec k n) as [->|Hne]; simpl.
  - by rewrite lookup_delete_eq.
  - rewrite lookup_delete_ne; [done | congruence].
Qed.

(** Every name a successful [DROP INDEX] deletes is an index. *)
Lemma exec_drop_Ok ie ns st st' :
  exec_drop ie ns st = Ok st' ->
  exists del, st' = set_rels st (fold_right delete (rels st) del) /\
    Forall (fun n => exists d, rels st !! n = Some (RIndex d)) del.
Proof.
  unfold exec_drop. destruct (rmap (check_drop ie st) ns) as [found|] eqn:E; [|done].
  intros [= <-]. exists (concat found). split; [done|].
  revert found E. induction ns as [|n ns IH]; simpl; intros found E.
  - by injection E as <-.
  - unfold check_drop in E.
    destruct (rels st !! n) as [[|d]|] eqn:Hn; [done| |destruct ie; [|done]]; simpl in E;
      destruct (rmap _ ns) as [f|]; try done; injection E as <-; simpl;
      [constructor; eauto|]; auto.
Qed.

Lemma exec_set_rels l n v st st' : exec_set l n v st = Ok st' -> rels st' = rels st.
Proof. unfold exec_set. destruct (gucs st !! _); [|done]. intros (? & _ & [= <-])%rbind_eq_Ok. done. Qed.

Lemma wfb_sound st : wfb st = true -> wf st.
Proof.
  unfold wfb, wf. rewrite forallb_forall. intros H n d Hd.
  specialize (H (n, RIndex d)). simpl in H.
  assert (Hin : In (n, RIndex d) (map_to_list (rels st))).
  { apply list_elem_of_In, elem_of_map_to_list. done. }
  specialize (H Hin). unfold index_okb in H.
  destruct (rels st !! idx_table d) as [[tcols|]|] eqn:E; try done.
  exists tcols. split; [done|]. apply List.Forall_forall. intros c Hc.
  rewrite forallb_forall in H. by apply mem_In, H.
Qed.

Lemma check_value_idem n cur s v :
  check_value n cur s = Ok v -> check_value n v s = Ok v.
Proof.
  destruct cur; simpl; [|by intros [= <-]].
  destruct (parse_bool s) eqn:E; intros [= <-]. simpl. by rewrite E.
Qed.

(** A [SET] that succeeded succeeds again on its result, whatever the
    relations, and changes nothing more. *)
Lemma exec_set_idem l n v st st1 r :
  exec_set l n v st = Ok st1 -> exec_set l n v (set_rels st1 r) = Ok (set_rels st1 r).
Proof.
  unfold exec_set. destruct (gucs st !! downcase n) as [cur|] eqn:Ecur; [|done].
  intros (x & Hx & [= <-])%rbind_eq_Ok. unfold set_rels, assign_guc. simpl.
  rewrite lookup_insert_eq. simpl.
  assert (Hv : match v with SetTo s => check_value (downcase n) x s
               | SetDefault => Ok (default x (resets st !! downcase n)) end = Ok x).
  { destruct v as [s|]; [by eapply check_value_idem|].
    injection Hx as <-. by destruct (resets st !! downcase n). }
  rewrite Hv. simpl. rewrite insert_insert_eq. f_equal. f_equal.
  destruct l.
  - destruct (locals st !! downcase n) eqn:El; [by rewrite El|by rewrite lookup_insert_eq].
  - by rewrite delete_delete_eq.
Qed.

(** A table is never created nor dropped by a statement. *)
Lemma exec_stmt_tables st s st' t cols :
  exec_stmt st s = Ok st' ->
  rels st' !! t = Some (RTable cols) <-> rels st !! t = Some (RTable cols).
Proof.
  destruct s as [l n v| |ie ns|ine n tb cs p]; simpl.
  - by intros ->%exec_set_rels.
  - by intros [= <-].
  - intros (del & -> & Hdel)%exec_drop_Ok. simpl. rewrite lookup_fold_delete.
    destruct (mem t del) eqn:E; [|done].
    apply mem_In in E. rewrite List.Forall_forall in Hdel. destruct (Hdel t E) as [d Hd].
    by rewrite Hd.
  - intros (tc & Ht & _ & [[Hn ->] | (_ & _ & ->)])%exec_create_Ok; simpl; [|done].
    destruct (String.eqb_spec n t) as [->|Hne].
    + rewrite lookup_insert_eq, Hn. done.
    + by rewrite lookup_insert_ne.
Qed.

(** An index whose table and columns are unchanged stays well formed. *)
Lemma index_ok_tables r r' d :
  (forall t cols, r !! t = Some (RTable cols) -> r' !! t = Some (RTable cols)) ->
  index_ok r d -> index_ok r' d.
Proof. intros Ht (tcols & H1 & H2). exists tcols. auto. Qed.

(** The indexes after a statement: those before, or the one it creates. *)
Lemma exec_stmt_indexes st s st' n d :
  exec_stmt st s = Ok st' -> rels st' !! n = Some (RIndex d) ->
  rels st !! n = Some (RIndex d) \/ index_ok (rels st) d.
Proof.
  destruct s as [l m v| |ie ns|ine m tb cs p]; simpl.
  - intros ->%exec_set_rels. auto.
  - intros [= <-]. auto.
  - intros (del & -> & _)%exec_drop_Ok. simpl. rewrite lookup_fold_delete.
    destruct (mem n del); [done | auto].
  - intros (tc & Ht & Hc & [[Hn ->] | (_ & _ & ->)])%exec_create_Ok; simpl; [|auto].
    destruct (String.eqb_spec m n) as [->|Hne].
    + rewrite lookup_insert_eq. intros [= <-]. right. exists tc. split; [done|].
      simpl. rewrite Forall_app in *. tauto.
    + rewrite lookup_insert_ne; auto.
Qed.

(** The catalog invariant is preserved by every statement. *)
Lemma exec_stmt_wf st s st' : wf st -> exec_stmt st s = Ok st' -> wf st'.
Proof.
  intros Hwf Hs n d Hd. apply (index_ok_tables (rels st)).
  - intros t cols. by rewrite (exec_stmt_tables _ _ _ t cols Hs).
  - destruct (exec_stmt_indexes _ _ _ _ _ Hs Hd); eauto.
Qed.

#[export] Hint Resolve exec_stmt_wf : mig.

Lemma exec_stmts_wf st ss st' : wf st -> exec_stmts st ss = Ok st' -> wf st'.
Proof. intros H1 H2. eapply rfold_preserves; eauto with mig. Qed.

Lemma exec_stmts_tables st ss st' t cols :
  exec_stmts st ss = Ok st' ->
  rels st' !! t = Some (RTable cols) <-> rels st !! t = Some (RTable cols).
Proof.
  unfold exec_stmts. revert st. induction ss as [|s ss IH]; intros st H; simpl in H.
  - by injection H as <-.
  - rbind_inv. rewrite (IH _ H). by apply (exec_stmt_tables st s).
Qed.

End Exec.
