(* ===== verification/IndexSwap.v ===== *)
(** * Replacing an index by a partial one

    The [up] script repeats one pattern four times: [DROP INDEX IF EXISTS
    old] then [CREATE INDEX IF NOT EXISTS new ON table (col) WHERE
    deleted_at IS NULL]; the [down] script recreates [old] as a plain index
    on the same column.  This file gives the pattern a name ([swap]), says
    when one swap succeeds and what it does ([exec_swap_up]), and composes
    swaps whose names do not interfere ([exec_swaps_up],
    [lookup_swaps_rels]).  The migration's four swaps are an instance
    (ImprovedIndexes.index_swaps). *)

From Stdlib Require Import String Ascii List Lia.
From stdpp Require Import base list gmap strings.
From S2P Require Import Prelude SqlLexer SqlParser Catalog.
Import ListNotations.
Import Scan Grammar Exec.

Module Swap.

Local Open Scope string_scope.
Local Open Scope list_scope.
#[local] Set Warnings "-clear-no-such-hyp".

Record swap := mk_swap {
  sw_old : string;      (** the index dropped *)
  sw_new : string;      (** the partial index created *)
  sw_table : string;
  sw_col : string
}.

Definition not_deleted : option predicate := Some (PIsNull "deleted_at").

Definition swap_up (w : swap) : list stmt :=
  [SDropIndex true [sw_old w];
   SCreateIndex true (sw_new w) (sw_table w) [sw_col w] not_deleted].

Definition swap_down (w : swap) : stmt :=
  SCreateIndex true (sw_old w) (sw_table w) [sw_col w] None.

Definition partial_index (w : swap) : relation := RIndex (mk_index (sw_table w) [sw_col w] not_deleted).
Definition plain_index (w : swap) : relation := RIndex (mk_index (sw_table w) [sw_col w] None).

(** One swap runs when [old] is not a table and the table has the column
    and [deleted_at]. *)
Definition swap_ready (r : gmap string relation) (w : swap) : Prop :=
  (forall cols, r !! sw_old w <> Some (RTable cols)) /\
  exists tcols, r !! sw_table w = Some (RTable tcols) /\
    In "deleted_at" tcols /\ In (sw_col w) tcols.

Definition swap_readyb (r : gmap string relation) (w : swap) : bool :=
  match r !! sw_old w with Some (RTable _) => false | _ => true end &&
  match r !! sw_table w with
  | Some (RTable tcols) => mem "deleted_at" tcols && mem (sw_col w) tcols
  | _ => false
  end.

(** What one swap does to the relations. *)
Definition swap_rels (r : gmap string relation) (w : swap) : gmap string relation :=
  let r1 := delete (sw_old w) r in
  match r1 !! sw_new w with
  | Some _ => r1
  | None => <[sw_new w := partial_index w]> r1
  end.

Definition swaps_rels (r : gmap string relation) (ws : list swap) : gmap string relation :=
  fold_left swap_rels ws r.

Fixpoint swaps_ready (r : gmap string relation) (ws : list swap) : Prop :=
  match ws with
  | [] => True
  | w :: ws' => swap_ready r w /\ swaps_ready (swap_rels r w) ws'
  end.

Definition swap_names (ws : list swap) : list string :=
  concat (map (fun w => [sw_old w; sw_new w]) ws).

(** The swaps do not interfere: their index names are pairwise distinct
    and no table bears one of them. *)
Definition swaps_disjoint (ws : list swap) : Prop :=
  List.NoDup (swap_names ws) /\ Forall (fun w => ~ In (sw_table w) (swap_names ws)) ws.

(** The reverse direction: [DROP INDEX IF EXISTS new] for each swap, then
    [CREATE INDEX IF NOT EXISTS old ON table (col)]. *)
Definition swap_drop_new (w : swap) : stmt := SDropIndex true [sw_new w].

Definition swap_down_rels (r : gmap string relation) (w : swap) : gmap string relation :=
  match r !! sw_old w with
  | Some _ => r
  | None => <[sw_old w := plain_index w]> r
  end.

Definition swap_down_ready (r : gmap string relation) (w : swap) : Prop :=
  exists tcols, r !! sw_table w = Some (RTable tcols) /\ In (sw_col w) tcols.

Definition drops_rels (r : gmap string relation) (ws : list swap) : gmap string relation :=
  fold_left (fun r w => delete (sw_new w) r) ws r.

Definition downs_rels (r : gmap string relation) (ws : list swap) : gmap string relation :=
  fold_left swap_down_rels ws r.

(** ** One swap *)

Lemma exec_drop_if_exists n st :
  (forall c, rels st !! n <> Some (RTable c)) ->
  exec_drop true [n] st = Ok (set_rels st (delete n (rels st))).
Proof.
  intros Hn. unfold exec_drop, check_drop. simpl.
  destruct (rels st !! n) as [[c|d]|] eqn:E; simpl.
  - by destruct (Hn c).
  - done.
  - by rewrite delete_id, set_rels_id.
Qed.

(** Dropping a name that is not a table keeps every table. *)
Lemma delete_keeps_tables (r : gmap string relation) o t c :
  (forall c', r !! o <> Some (RTable c')) ->
  delete o r !! t = Some (RTable c) <-> r !! t = Some (RTable c).
Proof.
  intros Ho. destruct (String.eqb_spec o t) as [->|Hne].
  - rewrite lookup_delete_eq. split; [done|]. intros H. by apply Ho in H.
  - by rewrite lookup_delete_ne.
Qed.

Lemma exec_swap_up st w st' :
  exec_stmts st (swap_up w) = Ok st' <->
  swap_ready (rels st) w /\ st' = set_rels st (swap_rels (rels st) w).
Proof.
  unfold exec_stmts, swap_up, swap_ready, swap_rels. simpl.
  destruct (rels st !! sw_old w) as [[c|d]|] eqn:Ho.
  { unfold exec_drop, check_drop. simpl. rewrite Ho. simpl.
    split; [done|]. intros [[H _] _]. by destruct (H c). }
  all: rewrite exec_drop_if_exists by (rewrite Ho; congruence); simpl; rewrite rbind_Ok_r.
  all: rewrite exec_create_Ok; simpl; setoid_rewrite Forall_cons_iff.
  all: setoid_rewrite (delete_keeps_tables (rels st) (sw_old w) (sw_table w)); [|rewrite Ho; congruence].
  all: destruct (delete (sw_old w) (rels st) !! sw_new w) eqn:En.
  all: unfold set_rels; simpl.
  all: split; [intros (tc & Ht & (H1 & Hf) & Hc); apply Forall_cons_iff in Hf as [H2 _] |
               intros [(_ & tc & Ht & H1 & H2) ->]; exists tc]; rewrite ?Ho; naive_solver.
Qed.

Lemma swap_readyb_sound r w : swap_readyb r w = true -> swap_ready r w.
Proof.
  unfold swap_readyb, swap_ready. intros [Ho Ht]%andb_prop. split.
  - intros c E. by rewrite E in Ho.
  - destruct (r !! sw_table w) as [[tcols|]|]; try done.
    apply andb_prop in Ht as [H1 H2]. apply mem_In in H1, H2. eauto.
Qed.

Lemma swaps_readyb_sound r ws : forallb (swap_readyb r) ws = true -> Forall (swap_ready r) ws.
Proof.
  rewrite forallb_forall, List.Forall_forall. intros H w Hw. by apply swap_readyb_sound, H.
Qed.

(** ** Sequences of swaps *)

Lemma exec_stmts_app st xs ys :
  exec_stmts st (xs ++ ys) = let? s := exec_stmts st xs in exec_stmts s ys.
Proof. apply rfold_app. Qed.

Lemma exec_stmts_cons st x xs :
  exec_stmts st (x :: xs) = let? s := exec_stmt st x in exec_stmts s xs.
Proof. reflexivity. Qed.

Lemma exec_swaps_up st ws st' :
  exec_stmts st (concat (map swap_up ws)) = Ok st' <->
  swaps_ready (rels st) ws /\ st' = set_rels st (swaps_rels (rels st) ws).
Proof.
  revert st. induction ws as [|w ws IH]; intros st.
  - simpl. rewrite set_rels_id. split; [intros [= <-] | intros [_ ->]]; done.
  - change (concat (map swap_up (w :: ws))) with (swap_up w ++ concat (map swap_up ws)).
    rewrite exec_stmts_app, rbind_eq_Ok. setoid_rewrite exec_swap_up. cbn [swaps_ready]. split.
    + intros (s1 & [Hr ->] & Hrest). apply IH in Hrest as [Hready ->]. split; [auto|reflexivity].
    + intros [[Hr Hready] ->]. exists (set_rels st (swap_rels (rels st) w)).
      split; [auto|]. apply IH. split; [auto|reflexivity].
Qed.

(** Outside its two names, a swap changes nothing. *)
Lemma lookup_swap_rels_other r w k :
  k <> sw_old w -> k <> sw_new w -> swap_rels r w !! k = r !! k.
Proof.
  intros Ho Hn. unfold swap_rels.
  destruct (delete (sw_old w) r !! sw_new w); rewrite ?lookup_insert_ne, lookup_delete_ne; auto.
Qed.

Lemma swap_names_cons w ws : swap_names (w :: ws) = sw_old w :: sw_new w :: swap_names ws.
Proof. reflexivity. Qed.

Lemma lookup_swaps_rels_other r ws k :
  ~ In k (swap_names ws) -> swaps_rels r ws !! k = r !! k.
Proof.
  unfold swaps_rels. revert r. induction ws as [|w ws IH]; intros r Hk; [done|].
  rewrite swap_names_cons in Hk. simpl in Hk. cbn [fold_left].
  rewrite IH by tauto. apply lookup_swap_rels_other; intros ->; tauto.
Qed.


Lemma in_swap_names w ws :
  In w ws -> In (sw_old w) (swap_names ws) /\ In (sw_new w) (swap_names ws).
Proof.
  induction ws as [|w' ws IH]; [done|]. rewrite swap_names_cons.
  intros [->|H]; [simpl; tauto|]. apply IH in H. simpl; tauto.
Qed.

(** After distinct swaps: each old name is free, each new name holds what
    it held before, or else the partial index. *)
Lemma lookup_swaps_rels r ws :
  List.NoDup (swap_names ws) ->
  Forall (fun w => swaps_rels r ws !! sw_old w = None /\
    swaps_rels r ws !! sw_new w = Some (match r !! sw_new w with Some x => x | None => partial_index w end)) ws.
Proof.
  unfold swaps_rels. revert r. induction ws as [|w ws IH]; intros r Hnd; simpl; [done|].
  rewrite swap_names_cons in Hnd. apply NoDup_cons_iff in Hnd as [Hold Hnd].
  apply NoDup_cons_iff in Hnd as [Hnew Hnd]. simpl in Hold.
  assert (Hon : sw_old w <> sw_new w) by (intros E; rewrite E in Hold; tauto).
  constructor.
  - fold (swaps_rels (swap_rels r w) ws).
    rewrite !lookup_swaps_rels_other by tauto. unfold swap_rels.
    rewrite (lookup_delete_ne _ (sw_old w) (sw_new w)) by done.
    destruct (r !! sw_new w) eqn:E.
    + rewrite lookup_delete_eq, lookup_delete_ne, E by done. done.
    + rewrite lookup_insert_ne, lookup_delete_eq, lookup_insert_eq by done. done.
  - specialize (IH (swap_rels r w) Hnd). rewrite List.Forall_forall in IH |- *.
    intros w' Hw'. destruct (IH w' Hw') as [H1 H2]. split; [done|]. rewrite H2.
    destruct (in_swap_names w' ws Hw') as [_ Hin].
    rewrite (lookup_swap_rels_other r w (sw_new w')); [done| |]; intros E; rewrite E in Hin; tauto.
Qed.

(** Readiness of a swap reads two names only. *)
Lemma swap_ready_ext r r' w :
  r' !! sw_old w = r !! sw_old w -> r' !! sw_table w = r !! sw_table w ->
  swap_ready r' w <-> swap_ready r w.
Proof. intros Ho Ht. unfold swap_ready. by rewrite Ho, Ht. Qed.

(** Disjoint swaps are ready in sequence exactly when each is ready at the start. *)
Lemma swaps_ready_iff r ws :
  swaps_disjoint ws -> swaps_ready r ws <-> Forall (swap_ready r) ws.
Proof.
  revert r. induction ws as [|w ws IH]; intros r [Hnd Ht]; [simpl; split; auto|].
  rewrite swap_names_cons in Hnd, Ht.
  apply NoDup_cons_iff in Hnd as [Hold Hnd]. apply NoDup_cons_iff in Hnd as [Hnew Hnd].
  simpl in Hold. apply Forall_cons_iff in Ht as [_ Hts]. cbn [swaps_ready].
  rewrite Forall_cons_iff, IH.
  2:{ split; [done|]. eapply Forall_impl; [exact Hts|]. simpl. tauto. }
  enough (Forall (swap_ready (swap_rels r w)) ws <-> Forall (swap_ready r) ws) by tauto.
  rewrite !List.Forall_forall. rewrite List.Forall_forall in Hts.
  split; intros H w' Hw'; specialize (H w' Hw'); specialize (Hts w' Hw'); simpl in Hts;
    destruct (in_swap_names w' ws Hw') as [Ho' _];
    ((eapply swap_ready_ext; [..|exact H]) || (eapply swap_ready_ext in H; [exact H|..]));
    rewrite lookup_swap_rels_other; try done; intros E; rewrite ?E in *; tauto.
Qed.

(** Dropping the new names, when none is a table. *)
Lemma exec_drops_new st ws :
  Forall (fun w => forall c, rels st !! sw_new w <> Some (RTable c)) ws ->
  exec_stmts st (map swap_drop_new ws) = Ok (set_rels st (drops_rels (rels st) ws)).
Proof.
  unfold drops_rels. revert st. induction ws as [|w ws IH]; intros st Hws.
  - by rewrite set_rels_id.
  - apply Forall_cons_iff in Hws as [Hw Hws]. cbn [map fold_left].
    rewrite exec_stmts_cons. simpl. rewrite exec_drop_if_exists by done. simpl.
    rewrite IH; [done|]. eapply Forall_impl; [exact Hws|]. simpl.
    intros w' Hw' c. rewrite delete_keeps_tables; auto.
Qed.

Lemma lookup_drops_rels r ws k :
  drops_rels r ws !! k = if mem k (map sw_new ws) then None else r !! k.
Proof.
  unfold drops_rels. revert r. induction ws as [|w ws IH]; intros r; [done|].
  cbn [fold_left map mem existsb]. rewrite IH. unfold mem.
  destruct (existsb (String.eqb k) (map sw_new ws)); [by rewrite orb_true_r|].
  rewrite orb_false_r. destruct (String.eqb_spec k (sw_new w)) as [->|Hne].
  - by rewrite lookup_delete_eq.
  - by rewrite lookup_delete_ne.
Qed.

Lemma exec_swap_down st w st' :
  exec_stmt st (swap_down w) = Ok st' <->
  swap_down_ready (rels st) w /\ st' = set_rels st (swap_down_rels (rels st) w).
Proof.
  unfold swap_down, swap_down_rels, swap_down_ready. simpl. rewrite exec_create_Ok. simpl.
  setoid_rewrite Forall_cons_iff. setoid_rewrite List.Forall_nil_iff.
  destruct (rels st !! sw_old w) eqn:E; split.
  all: first [intros (tc & Ht & [Hc _] & [[Hn ->]|(_ & Hs & ->)]) |
              intros [(tc & Ht & Hc) ->]; exists tc];
       rewrite ?set_rels_id; try (by destruct Hs); naive_solver.
Qed.

Lemma swap_down_keeps_tables r w t c :
  swap_down_rels r w !! t = Some (RTable c) <-> r !! t = Some (RTable c).
Proof.
  unfold swap_down_rels. case_match eqn:E; [done|].
  destruct (String.eqb_spec (sw_old w) t) as [<-|Hne].
  - rewrite lookup_insert_eq, E. done.
  - by rewrite lookup_insert_ne.
Qed.

Lemma exec_swaps_down st ws :
  Forall (swap_down_ready (rels st)) ws ->
  exec_stmts st (map swap_down ws) = Ok (set_rels st (downs_rels (rels st) ws)).
Proof.
  unfold downs_rels. revert st. induction ws as [|w ws IH]; intros st Hws.
  - by rewrite set_rels_id.
  - apply Forall_cons_iff in Hws as [Hw Hws]. cbn [map fold_left].
    rewrite exec_stmts_cons.
    rewrite (proj2 (exec_swap_down st w _) (conj Hw eq_refl)). simpl.
    rewrite IH; [done|]. eapply Forall_impl; [exact Hws|]. simpl.
    intros w' (tc & Ht & Hc). exists tc. rewrite swap_down_keeps_tables. auto.
Qed.

Lemma lookup_swap_down_rels_other r w k :
  k <> sw_old w -> swap_down_rels r w !! k = r !! k.
Proof.
  intros Hk. unfold swap_down_rels. case_match; [done|]. by rewrite lookup_insert_ne.
Qed.

Lemma lookup_downs_rels_other r ws k :
  ~ In k (map sw_old ws) -> downs_rels r ws !! k = r !! k.
Proof.
  unfold downs_rels. revert r. induction ws as [|w ws IH]; intros r Hk; [done|].
  simpl in Hk. cbn [fold_left]. rewrite IH by tauto.
  apply lookup_swap_down_rels_other. intros ->. tauto.
Qed.

(** After the creates, each old name holds what it held, or the plain index. *)
Lemma lookup_downs_rels r ws :
  List.NoDup (map sw_old ws) ->
  Forall (fun w => downs_rels r ws !! sw_old w =
    Some (match r !! sw_old w with Some x => x | None => plain_index w end)) ws.
Proof.
  unfold downs_rels. revert r. induction ws as [|w ws IH]; intros r Hnd; [done|].
  simpl in Hnd. apply NoDup_cons_iff in Hnd as [Hw Hnd]. constructor.
  - cbn [fold_left]. fold (downs_rels (swap_down_rels r w) ws).
    rewrite lookup_downs_rels_other by done. unfold swap_down_rels.
    destruct (r !! sw_old w) eqn:E; [by rewrite E|]. by rewrite lookup_insert_eq.
  - specialize (IH (swap_down_rels r w) Hnd). rewrite List.Forall_forall in IH |- *.
    intros w' Hw'. cbn [fold_left]. rewrite (IH w' Hw').
    rewrite lookup_swap_down_rels_other; [done|]. intros E.
    apply Hw. rewrite <- E. by apply in_map.
Qed.

(** ** Names *)

Lemma swap_names_In k ws :
  In k (swap_names ws) <-> In k (map sw_old ws) \/ In k (map sw_new ws).
Proof.
  induction ws as [|w ws IH]; [simpl; tauto|]. rewrite swap_names_cons. simpl. rewrite IH. tauto.
Qed.

Lemma swap_names_NoDup ws :
  List.NoDup (swap_names ws) ->
  List.NoDup (map sw_old ws) /\ List.NoDup (map sw_new ws) /\
  forall k, In k (map sw_old ws) -> ~ In k (map sw_new ws).
Proof.
  induction ws as [|w ws IH]; [repeat constructor; done|].
  rewrite swap_names_cons. intros Hnd.
  apply NoDup_cons_iff in Hnd as [Hold Hnd]. apply NoDup_cons_iff in Hnd as [Hnew Hnd].
  destruct (IH Hnd) as (Ho & Hn & Hon). simpl in Hold. rewrite swap_names_In in Hold, Hnew. simpl.
  split; [constructor; tauto|]. split; [constructor; tauto|].
  intros k [<-|Hk] [E|Hk']; [tauto| | |]; try (subst; tauto). eapply Hon; eauto.
Qed.

(** Swapping, dropping the new names and recreating the old ones gives
    back the relations, when the old indexes were the plain ones and the
    new names were free. *)
Lemma roundtrip_rels r ws :
  List.NoDup (swap_names ws) ->
  Forall (fun w => r !! sw_old w = Some (plain_index w) /\ r !! sw_new w = None) ws ->
  downs_rels (drops_rels (swaps_rels r ws) ws) ws = r.
Proof.
  intros Hnd Hws. destruct (swap_names_NoDup ws Hnd) as (Ho & Hn & Hon).
  pose proof (lookup_swaps_rels r ws Hnd) as Hsw.
  pose proof (lookup_downs_rels (drops_rels (swaps_rels r ws) ws) ws Ho) as Hdn.
  rewrite List.Forall_forall in Hws, Hsw, Hdn.
  apply map_eq. intros k.
  destruct (in_dec string_dec k (map sw_old ws)) as [Hk|Hk].
  - apply in_map_iff in Hk as (w & <- & Hw).
    rewrite (Hdn w Hw), lookup_drops_rels, (proj1 (Hsw w Hw)).
    destruct (mem (sw_old w) (map sw_new ws)) eqn:E.
    + apply mem_In in E. exfalso. eapply Hon; [apply in_map|]; eauto.
    + by rewrite (proj1 (Hws w Hw)).
  - rewrite lookup_downs_rels_other, lookup_drops_rels by done.
    destruct (mem k (map sw_new ws)) eqn:E.
    + apply mem_In, in_map_iff in E as (w & <- & Hw). by rewrite (proj2 (Hws w Hw)).
    + apply lookup_swaps_rels_other. rewrite swap_names_In.
      intros [?|?%mem_In]; [done | congruence].
Qed.

(** Swaps whose old names are free and new names taken change nothing. *)
Lemma swaps_rels_fixed r ws :
  Forall (fun w => r !! sw_old w = None /\ is_Some (r !! sw_new w)) ws ->
  swaps_rels r ws = r.
Proof.
  unfold swaps_rels. revert r. induction ws as [|w ws IH]; intros r Hws; [done|].
  apply Forall_cons_iff in Hws as [[Ho [x Hn]] Hws]. cbn [fold_left].
  assert (E : swap_rels r w = r).
  { unfold swap_rels. rewrite delete_id by done. by rewrite Hn. }
  rewrite E. by apply IH.
Qed.

(** ** The reverse direction run twice *)

Lemma downs_keeps_tables r ws t c :
  downs_rels r ws !! t = Some (RTable c) <-> r !! t = Some (RTable c).
Proof.
  unfold downs_rels. revert r. induction ws as [|w ws IH]; intros r; [done|].
  cbn [fold_left]. rewrite IH. apply swap_down_keeps_tables.
Qed.

Lemma drops_keeps_tables r ws t c :
  Forall (fun w => forall c', r !! sw_new w <> Some (RTable c')) ws ->
  drops_rels r ws !! t = Some (RTable c) <-> r !! t = Some (RTable c).
Proof.
  intros Hws. rewrite lookup_drops_rels. destruct (mem t (map sw_new ws)) eqn:E; [|done].
  split; [done|]. intros Ht. apply mem_In, in_map_iff in E as (w & <- & Hw).
  rewrite List.Forall_forall in Hws. by apply (Hws w Hw) in Ht.
Qed.

Lemma downs_rels_fixed r ws : Forall (fun w => is_Some (r !! sw_old w)) ws -> downs_rels r ws = r.
Proof.
  unfold downs_rels. induction ws as [|w ws IH]; [done|]. intros [[x Hw] Hws]%Forall_cons_iff.
  cbn [fold_left]. assert (E : swap_down_rels r w = r) by (unfold swap_down_rels; by rewrite Hw).
  rewrite E. by apply IH.
Qed.

Lemma drops_rels_fixed r ws : Forall (fun w => r !! sw_new w = None) ws -> drops_rels r ws = r.
Proof.
  intros Hws. apply map_eq. intros k. rewrite lookup_drops_rels.
  destruct (mem k (map sw_new ws)) eqn:E; [|done]. apply mem_In, in_map_iff in E as (w & <- & Hw).
  rewrite List.Forall_forall in Hws. by rewrite Hws.
Qed.

(** The reverse direction, drops then creates, when each table has its
    column and no new name is a table. *)
Lemma exec_swaps_down_all st ws :
  Forall (fun w => swap_down_ready (rels st) w /\ forall c, rels st !! sw_new w <> Some (RTable c)) ws ->
  exec_stmts st (map swap_drop_new ws ++ map swap_down ws) =
    Ok (set_rels st (downs_rels (drops_rels (rels st) ws) ws)).
Proof.
  intros Hws. assert (Hn : Forall (fun w => forall c, rels st !! sw_new w <> Some (RTable c)) ws)
    by (eapply Forall_impl; [exact Hws | intros w [_ Hw]; exact Hw]).
  rewrite exec_stmts_app, exec_drops_new by done. simpl.
  rewrite exec_swaps_down; [done|]. eapply Forall_impl; [exact Hws|].
  intros w [(tc & Ht & Hc) _]. exists tc. split; [|done]. simpl. by apply drops_keeps_tables.
Qed.

(** Reverting twice: the second run of the reverse direction succeeds and
    changes nothing, since its drops are guarded and its creates find the
    old names taken. *)
Lemma swaps_down_twice st ws :
  List.NoDup (swap_names ws) ->
  Forall (fun w => swap_down_ready (rels st) w /\ forall c, rels st !! sw_new w <> Some (RTable c)) ws ->
  exists st1, exec_stmts st (map swap_drop_new ws ++ map swap_down ws) = Ok st1 /\
    exec_stmts st1 (map swap_drop_new ws ++ map swap_down ws) = Ok st1.
Proof.
  intros Hnd Hws. destruct (swap_names_NoDup ws Hnd) as (Ho & Hn & Hon).
  set (r2 := downs_rels (drops_rels (rels st) ws) ws).
  exists (set_rels st r2). split; [by apply exec_swaps_down_all|].
  assert (Hfree : Forall (fun w => r2 !! sw_new w = None) ws).
  { apply List.Forall_forall. intros w Hw. unfold r2. rewrite lookup_downs_rels_other.
    - rewrite lookup_drops_rels. by rewrite (proj2 (mem_In _ _) (in_map _ _ _ Hw)).
    - intros Hin. eapply Hon; [exact Hin | apply in_map, Hw]. }
  assert (Htaken : Forall (fun w => is_Some (r2 !! sw_old w)) ws).
  { eapply Forall_impl; [apply (lookup_downs_rels (drops_rels (rels st) ws) ws Ho)|]. simpl. intros w Hw. eexists. exact Hw. }
  assert (Hn' : Forall (fun w => forall c, rels st !! sw_new w <> Some (RTable c)) ws)
    by (eapply Forall_impl; [exact Hws | intros w [_ Hw]; exact Hw]).
  rewrite exec_swaps_down_all.
  - simpl. rewrite drops_rels_fixed by done. by rewrite downs_rels_fixed.
  - rewrite List.Forall_forall in Hws, Hfree |- *. intros w Hw. simpl. split.
    + destruct (proj1 (Hws w Hw)) as (tc & Ht & Hc). exists tc. split; [|done].
      unfold r2. by rewrite downs_keeps_tables, drops_keeps_tables.
    + intros c. by rewrite (Hfree w Hw).
Qed.

End Swap.
