(* ===== verification/QueryRunner.v ===== *)
(** * TypeORM's interfaces, and the PostgreSQL query runner

    A migration only sees TypeORM's [QueryRunner]: [query(sql)] sends one
    string to the database and resolves, or rejects with the database's
    error.  [QueryRunner] is that interface as a class over the state it
    changes; [QueryRunnerSpec] is the promise a migration relies on: a
    string the SQL grammar rejects is not executed, and the rejection is
    the parser's error.  [MigrationInterface] is TypeORM's interface of a
    migration class ([name], [up], [down]).

    [pg_query] is the instance for PostgreSQL reached through node-postgres
    with no parameters (the simple query protocol): the whole string is
    parsed, then its statements run in order inside one transaction, so a
    failing statement leaves the database as it was (the result carries no
    state on error), and a successful run commits ([commit_xact]: the
    settings of [SET LOCAL] end with it).  [pg_query_spec] discharges the interface's law. *)

From Stdlib Require Import String List.
From stdpp Require Import base list gmap strings.
From S2P Require Import Prelude SqlLexer SqlParser Catalog.
Import ListNotations.
Import Scan Grammar Exec.

Module Interfaces.

Inductive query_error :=
| QueryParseError (e : parse_error)
| QueryExecError (e : exec_error).

Class QueryRunner (St : Type) := {
  query : string -> St -> result query_error St
}.

Class QueryRunnerSpec (St : Type) `{QueryRunner St} := {
  query_parse_first : forall s e st, parse_script s = Err e -> query s st = Err (QueryParseError e)
}.

Record MigrationInterface (St : Type) := mk_migration {
  mi_name : string;
  mi_up : St -> result query_error St;
  mi_down : St -> result query_error St
}.
Arguments mk_migration {St} _ _ _.
Arguments mi_name {St} _.
Arguments mi_up {St} _ _.
Arguments mi_down {St} _ _.

(** ** The PostgreSQL instance *)

Definition pg_query (s : string) (st : db) : result query_error db :=
  match parse_script s with
  | Err e => Err (QueryParseError e)
  | Ok ss =>
      match exec_stmts st ss with
      | Ok st' => Ok (commit_xact st')
      | Err e => Err (QueryExecError e)
      end
  end.

#[export] Instance pg_runner : QueryRunner db := {| query := pg_query |}.

#[export] Instance pg_query_spec : QueryRunnerSpec db.
Proof. constructor. intros s e st H. simpl. unfold pg_query. by rewrite H. Qed.

(** On a string that parses, the PostgreSQL runner is the executor. *)
Lemma pg_query_parsed s ss st :
  parse_script s = Ok ss ->
  pg_query s st = match exec_stmts st ss with Ok st' => Ok (commit_xact st') | Err e => Err (QueryExecError e) end.
Proof. unfold pg_query. by intros ->. Qed.

End Interfaces.
