(* ===== verification/ImprovedIndexes.v ===== *)
(** * The migration class [productSearchGinIndexes1679950645254]

    src/packages/medusa/src/migrations/1679950645254-product-domain-impoved-indexes.ts.

    [up_sql] and [down_sql] are the two template literals of the source,
    character for character (a line of the source is [L "..."], a double
    quote of the SQL text is written with [dq]).  [up] and [down] send them
    through any [QueryRunner], as the methods do.  [up_statements] and
    [down_creates] are the statements that lines 8-20 and 31-34 spell out;
    the theorems relate them to the strings through the parser and run
    them through the executor. *)

From Stdlib Require Import String Ascii List Lia.
From stdpp Require Import base list gmap strings.
From S2P Require Import Prelude SqlLexer SqlParser Catalog IndexSwap QueryRunner.
Import ListNotations.
Import Scan Grammar Exec Swap Interfaces.

Module ImprovedIndexes.

Local Open Scope string_scope.
#[local] Set Warnings "-clear-no-such-hyp".

(** ** The source text *)

Definition nl : string := str1 (ascii_of_nat 10).
Definition L (s : string) : string := s ++ nl.
Definition dq (s : string) : string := str1 dquote ++ s ++ str1 dquote.

(** Lines 5-7: the opening of the literal and the two lines meant as comments. *)
Definition up_comment_lines : string :=
  nl ++
  L "      // If you want to reset it to 'on' run 'set enable_nestloop to on;'" ++
  L "      // Improve large IN queries, since we have separate queries everytime it is better to turn it off".

(** Lines 8-21: the statements, up to the closing backtick. *)
Definition up_statement_lines : string :=
  L "      set enable_nestloop to off;" ++
  L "      " ++
  L ("      DROP INDEX IF EXISTS " ++ dq "IDX_17a06d728e4cfbc5bd2ddb70af" ++ ";") ++
  L "      CREATE INDEX IF NOT EXISTS idx_money_amount_variant_id ON money_amount (variant_id) WHERE deleted_at is null;" ++
  L "" ++
  L ("      DROP INDEX IF EXISTS " ++ dq "IDX_b433e27b7a83e6d12ab26b15b0" ++ ";") ++
  L "      CREATE INDEX IF NOT EXISTS idx_money_amount_region_id ON money_amount (region_id) WHERE deleted_at is null;" ++
  L "" ++
  L ("      DROP INDEX IF EXISTS " ++ dq "IDX_7234ed737ff4eb1b6ae6e6d7b0" ++ ";") ++
  L "      CREATE INDEX IF NOT EXISTS idx_product_option_value_variant_id ON product_option_value (variant_id) WHERE deleted_at is null;" ++
  L "" ++
  L ("      DROP INDEX IF EXISTS " ++ dq "IDX_cdf4388f294b30a25c627d69fe" ++ ";") ++
  L "      CREATE INDEX IF NOT EXISTS idx_product_option_value_option_id ON product_option_value (option_id) WHERE deleted_at is null;" ++
  "    ".

(** The string [up] sends (lines 5-21). *)
Definition up_sql : string := up_comment_lines ++ up_statement_lines.

(** Lines 25-30: the opening of the literal and the four drops. *)
Definition down_drop_lines : string :=
  nl ++
  L "      DROP IF EXISTS idx_money_amount_variant_id;" ++
  L "      DROP IF EXISTS idx_money_amount_region_id;" ++
  L "      DROP IF EXISTS idx_product_option_value_variant_id;" ++
  L "      DROP IF EXISTS idx_product_option_value_option_id;" ++
  L "      ".

(** Lines 31-35: the four recreated indexes, up to the closing backtick. *)
Definition down_create_lines : string :=
  L ("      CREATE INDEX IF NOT EXISTS " ++ dq "IDX_17a06d728e4cfbc5bd2ddb70af" ++ " ON " ++ dq "money_amount" ++ " (" ++ dq "variant_id" ++ ");") ++
  L ("      CREATE INDEX IF NOT EXISTS " ++ dq "IDX_b433e27b7a83e6d12ab26b15b0" ++ " ON " ++ dq "money_amount" ++ " (" ++ dq "region_id" ++ ");") ++
  L ("      CREATE INDEX IF NOT EXISTS " ++ dq "IDX_7234ed737ff4eb1b6ae6e6d7b0" ++ " ON " ++ dq "product_option_value" ++ " (" ++ dq "variant_id" ++ ");") ++
  L ("      CREATE INDEX IF NOT EXISTS " ++ dq "IDX_cdf4388f294b30a25c627d69fe" ++ " ON " ++ dq "product_option_value" ++ " (" ++ dq "option_id" ++ ");") ++
  "    ".

(** The string [down] sends (lines 25-35). *)
Definition down_sql : string := down_drop_lines ++ down_create_lines.

(** ** The statements the lines spell out *)

(** Lines 8-20. *)
Definition up_statements : list stmt :=
  [SSet false "enable_nestloop" (SetTo "off");
   SDropIndex true ["IDX_17a06d728e4cfbc5bd2ddb70af"];
   SCreateIndex true "idx_money_amount_variant_id" "money_amount" ["variant_id"] not_deleted;
   SDropIndex true ["IDX_b433e27b7a83e6d12ab26b15b0"];
   SCreateIndex true "idx_money_amount_region_id" "money_amount" ["region_id"] not_deleted;
   SDropIndex true ["IDX_7234ed737ff4eb1b6ae6e6d7b0"];
   SCreateIndex true "idx_product_option_value_variant_id" "product_option_value" ["variant_id"] not_deleted;
   SDropIndex true ["IDX_cdf4388f294b30a25c627d69fe"];
   SCreateIndex true "idx_product_option_value_option_id" "product_option_value" ["option_id"] not_deleted].

(** Lines 31-34. *)
Definition down_creates : list stmt :=
  [SCreateIndex true "IDX_17a06d728e4cfbc5bd2ddb70af" "money_amount" ["variant_id"] None;
   SCreateIndex true "IDX_b433e27b7a83e6d12ab26b15b0" "money_amount" ["region_id"] None;
   SCreateIndex true "IDX_7234ed737ff4eb1b6ae6e6d7b0" "product_option_value" ["variant_id"] None;
   SCreateIndex true "IDX_cdf4388f294b30a25c627d69fe" "product_option_value" ["option_id"] None].

(** ** The four index replacements

    Lines 10-20 and 31-34 read as four swaps: (old index, new partial
    index, table, column). *)
Definition index_swaps : list swap :=
  [mk_swap "IDX_17a06d728e4cfbc5bd2ddb70af" "idx_money_amount_variant_id" "money_amount" "variant_id";
   mk_swap "IDX_b433e27b7a83e6d12ab26b15b0" "idx_money_amount_region_id" "money_amount" "region_id";
   mk_swap "IDX_7234ed737ff4eb1b6ae6e6d7b0" "idx_product_option_value_variant_id" "product_option_value" "variant_id";
   mk_swap "IDX_cdf4388f294b30a25c627d69fe" "idx_product_option_value_option_id" "product_option_value" "option_id"].

(** What the statements of [up] need of the database: the setting exists,
    each old name is not a table, each table has its column and
    [deleted_at]. *)
Definition up_ready (st : db) : Prop :=
  is_Some (gucs st !! "enable_nestloop") /\ Forall (swap_ready (rels st)) index_swaps.

(** The schema [up] was written for: the four plain indexes exist, the new
    names are free. *)
Definition legacy_layout (st : db) : Prop :=
  Forall (fun w => rels st !! sw_old w = Some (plain_index w) /\ rels st !! sw_new w = None) index_swaps.

(** Lines 26-29 as they evidently mean it: [DROP INDEX IF EXISTS new]. *)
Definition down_drops_intended : list stmt := map swap_drop_new index_swaps.

(** What the reverse statements need of the database: each table has its
    column, and no new index name is a table. *)
Definition down_ready (st : db) : Prop :=
  Forall (fun w => swap_down_ready (rels st) w /\ forall c, rels st !! sw_new w <> Some (RTable c))
    index_swaps.

(** ** Repairs that locate the two defects *)

(** The up string with its comment markers written the SQL way. *)
Definition up_sql_sql_comments : string := replace_all "//" "--" up_sql.

(** Lines 5-7 with their comment markers written the SQL way. *)
Definition up_comment_lines_sql : string := replace_all "//" "--" up_comment_lines.

(** The down string with the object kind written after [DROP]. *)
Definition down_sql_drop_index : string := replace_all "DROP IF" "DROP INDEX IF" down_sql.

(** An empty database with PostgreSQL's [enable_nestloop] setting, used by
    the witnesses. *)
Definition empty_db : db :=
  mk_db ∅ {[ "enable_nestloop" := GBool true ]} {[ "enable_nestloop" := GBool true ]} ∅.

(** The schema [up] was written for, as a concrete database: both tables,
    the four plain indexes, [enable_nestloop] on.  Used by the witnesses. *)
Definition legacy_db : db :=
  mk_db (list_to_map
           ([("money_amount", RTable ["id"; "variant_id"; "region_id"; "amount"; "deleted_at"]);
             ("product_option_value", RTable ["id"; "variant_id"; "option_id"; "value"; "deleted_at"])] ++
            map (fun w => (sw_old w, plain_index w)) index_swaps))
        {[ "enable_nestloop" := GBool true ]} {[ "enable_nestloop" := GBool true ]} ∅.

(** ** The class *)

Section Migration.
Context {St : Type} `{QueryRunner St}.

(** [public async up(queryRunner)]: one query, awaited. *)
Definition up (st : St) : result query_error St := query up_sql st.

(** [public async down(queryRunner)]. *)
Definition down (st : St) : result query_error St := query down_sql st.

Definition productSearchGinIndexes1679950645254 : MigrationInterface St :=
  mk_migration "productSearchGinIndexes1679950645254" up down.

End Migration.

(** ** What PostgreSQL's parser makes of the two strings *)

(** The lines meant as comments start with [//], which SQL reads as an
    operator: no statement starts with an operator. *)
Lemma parse_up_sql : parse_script up_sql = Err (SyntaxError (TOp "//")).
Proof. vm_compute. reflexivity. Qed.

(** [DROP] must be followed by the kind of object; [IF] is none. *)
Lemma parse_down_sql : parse_script down_sql = Err (SyntaxError (TIdent "IF")).
Proof. vm_compute. reflexivity. Qed.

Section Rejected.
Context {St : Type} `{QueryRunnerSpec St}.

(** C1: [up] fails on every database, whatever its state, with PostgreSQL's
    "syntax error at or near //", and (the result carrying no state) it
    changes nothing: none of the drops, creates or the [SET] of lines 8-20
    ever runs. *)
Theorem up_rejected (st : St) : up st = Err (QueryParseError (SyntaxError (TOp "//"))).
Proof. apply query_parse_first, parse_up_sql. Qed.

(** C2: [down] fails on every database with "syntax error at or near IF":
    [DROP IF EXISTS name] names no object kind, so not even the first
    revert succeeds, whether or not the indexes exist. *)
Theorem down_rejected (st : St) : down st = Err (QueryParseError (SyntaxError (TIdent "IF"))).
Proof. apply query_parse_first, parse_down_sql. Qed.

End Rejected.

Lemma up_rejected_witness :
  up (St := db) empty_db = Err (QueryParseError (SyntaxError (TOp "//"))).
Proof. apply (up_rejected (St := db)). Defined.

Lemma down_rejected_witness :
  down (St := db) empty_db = Err (QueryParseError (SyntaxError (TIdent "IF"))).
Proof. apply (down_rejected (St := db)). Defined.

(** ** The statements of [up] and [down] run *)

Lemma up_statements_swaps :
  up_statements = SSet false "enable_nestloop" (SetTo "off") :: concat (map swap_up index_swaps).
Proof. reflexivity. Qed.

Lemma down_creates_swaps : down_creates = map swap_down index_swaps.
Proof. reflexivity. Qed.

Lemma index_swaps_disjoint : swaps_disjoint index_swaps.
Proof. split; repeat constructor; simpl; intuition discriminate. Qed.

Lemma exec_set_nestloop st :
  (exists st1, exec_stmt st (SSet false "enable_nestloop" (SetTo "off")) = Ok st1) <->
  is_Some (gucs st !! "enable_nestloop").
Proof.
  simpl. unfold exec_set. change (downcase "enable_nestloop") with "enable_nestloop".
  destruct (gucs st !! "enable_nestloop") as [[]|]; naive_solver.
Qed.

(** The statements of lines 8-20: the [SET], then the four swaps. *)
Lemma exec_up_statements st st' :
  exec_stmts st up_statements = Ok st' <->
  exists st1, exec_stmt st (SSet false "enable_nestloop" (SetTo "off")) = Ok st1 /\
    Forall (swap_ready (rels st)) index_swaps /\
    st' = set_rels st1 (swaps_rels (rels st) index_swaps).
Proof.
  rewrite up_statements_swaps, exec_stmts_cons, rbind_eq_Ok.
  setoid_rewrite exec_swaps_up. setoid_rewrite (swaps_ready_iff _ _ index_swaps_disjoint).
  split; intros (st1 & H1 & Hr & ->); exists st1;
    pose proof (exec_set_rels _ _ _ _ _ H1) as E; rewrite E in *; auto.
Qed.

(** [up_ready] is enough for the statements to run. *)
Lemma exec_up_statements_ready st :
  up_ready st -> exists st', exec_stmts st up_statements = Ok st'.
Proof.
  intros [Hg Hr]. apply exec_set_nestloop in Hg as [st1 H1].
  eexists. apply exec_up_statements. eauto.
Qed.

(** After the statements, [enable_nestloop] is off. *)
Lemma exec_up_statements_gucs st st' b :
  gucs st !! "enable_nestloop" = Some (GBool b) ->
  exec_stmts st up_statements = Ok st' ->
  gucs st' = <["enable_nestloop" := GBool false]> (gucs st) /\
  locals st' = delete "enable_nestloop" (locals st) /\
  rels st' = swaps_rels (rels st) index_swaps.
Proof.
  intros Hg (st1 & H1 & Hr & ->)%exec_up_statements. simpl in H1. unfold exec_set in H1.
  change (downcase "enable_nestloop") with "enable_nestloop" in H1.
  rewrite Hg in H1. by injection H1 as <-.
Qed.

Section Statements.
Context (st : db).

(** C4: the statements of lines 8-20 run exactly when [enable_nestloop]
    exists, no old index name is a table, and [money_amount] and
    [product_option_value] have the indexed columns and [deleted_at];
    otherwise they fail (and, run in one transaction, change nothing). *)
Theorem up_statements_succeed : is_ok (exec_stmts st up_statements) = true <-> up_ready st.
Proof.
  rewrite is_ok_true. split; [|apply exec_up_statements_ready].
  intros [st' (st1 & H1 & Hr & _)%exec_up_statements]. split; [|done].
  apply exec_set_nestloop. eauto.
Qed.

(** C5: what the statements of lines 8-20 do: [enable_nestloop] becomes
    off; each old index is gone; each new name holds the partial index
    [(col) WHERE deleted_at IS NULL], unless the name was already taken, in
    which case it keeps what it held ([IF NOT EXISTS] looks at the name
    only); every other relation is unchanged. *)
Theorem up_statements_effect st' b :
  gucs st !! "enable_nestloop" = Some (GBool b) ->
  exec_stmts st up_statements = Ok st' ->
  gucs st' = <["enable_nestloop" := GBool false]> (gucs st) /\
  Forall (fun w => rels st' !! sw_old w = None /\
    rels st' !! sw_new w = Some (match rels st !! sw_new w with Some x => x | None => partial_index w end))
    index_swaps /\
  (forall k, ~ In k (swap_names index_swaps) -> rels st' !! k = rels st !! k).
Proof.
  intros Hg H. destruct (exec_up_statements_gucs st st' b Hg H) as (-> & _ & ->).
  split; [done|]. split.
  - apply lookup_swaps_rels, index_swaps_disjoint.
  - intros k Hk. by apply lookup_swaps_rels_other.
Qed.

(** C7: running the statements of lines 8-20 a second time succeeds and
    changes nothing: the guarded drops find nothing, the guarded creates
    find their names taken, the setting is already off. *)
Theorem up_statements_idempotent st' :
  exec_stmts st up_statements = Ok st' -> exec_stmts st' up_statements = Ok st'.
Proof.
  intros H. pose proof (proj1 (exec_up_statements st st') H) as (st1 & H1 & Hr & E).
  pose proof (lookup_swaps_rels (rels st) index_swaps (proj1 index_swaps_disjoint)) as Hsw.
  pose proof (proj2 index_swaps_disjoint) as Htab.
  assert (Hfix : Forall (fun w => rels st' !! sw_old w = None /\ is_Some (rels st' !! sw_new w)) index_swaps).
  { rewrite E. cbn [rels set_rels]. eapply Forall_impl; [exact Hsw|]. intros w [-> ->]. eauto. }
  apply exec_up_statements. exists st'. split; [|split].
  - rewrite E. exact (exec_set_idem _ _ _ st st1 _ H1).
  - rewrite List.Forall_forall in Hr, Htab, Hfix |- *. intros w Hw.
    destruct (Hr w Hw) as [_ Ht]. split; [rewrite (proj1 (Hfix w Hw)); congruence|].
    rewrite E. cbn [rels set_rels]. rewrite lookup_swaps_rels_other; [exact Ht | exact (Htab w Hw)].
  - by rewrite swaps_rels_fixed, set_rels_id.
Qed.

(** C6: the round trip of spec section 8.  From the schema [up] was
    written for, the statements of lines 8-20, then the drops of lines
    26-29 as meant ([DROP INDEX IF EXISTS]), then the creates of lines
    31-34, succeed and give back exactly the relations of the start, while
    [enable_nestloop] stays off: [down] does not restore the setting. *)
Theorem up_down_roundtrip b :
  legacy_layout st -> Forall (swap_ready (rels st)) index_swaps ->
  gucs st !! "enable_nestloop" = Some (GBool b) ->
  exists st', exec_stmts st (up_statements ++ down_drops_intended ++ down_creates) = Ok st' /\
    rels st' = rels st /\ gucs st' !! "enable_nestloop" = Some (GBool false).
Proof.
  intros Hlay Hr Hg. unfold legacy_layout in Hlay.
  destruct (exec_up_statements_ready st (conj (mk_is_Some _ _ Hg) Hr)) as [st1 H1].
  destruct (exec_up_statements_gucs st st1 b Hg H1) as (Hg1 & _ & Hrels1).
  pose proof (lookup_swaps_rels (rels st) index_swaps (proj1 index_swaps_disjoint)) as Hsw.
  rewrite <- Hrels1 in Hsw.
  pose proof (proj2 index_swaps_disjoint) as Htab.
  rewrite List.Forall_forall in Hlay, Hr, Hsw, Htab.
  rewrite exec_stmts_app, H1. cbn [rbind]. unfold down_drops_intended. rewrite exec_stmts_app, exec_drops_new.
  2:{ apply List.Forall_forall. intros w Hw c. rewrite (proj2 (Hsw w Hw)), (proj2 (Hlay w Hw)). done. }
  cbn [rbind]. rewrite down_creates_swaps, exec_swaps_down.
  2:{ apply List.Forall_forall. intros w Hw. destruct (Hr w Hw) as (_ & tc & Ht & _ & Hc).
      exists tc. split; [|done]. cbn [rels set_rels]. rewrite lookup_drops_rels.
      destruct (mem (sw_table w) (map sw_new index_swaps)) eqn:Em.
      - exfalso. apply (Htab w Hw), swap_names_In. right. by apply mem_In.
      - rewrite Hrels1, lookup_swaps_rels_other; [done | exact (Htab w Hw)]. }
  eexists. split; [reflexivity|]. cbn [rels gucs set_rels]. split.
  - rewrite Hrels1. apply roundtrip_rels; [apply index_swaps_disjoint|].
    apply List.Forall_forall. intros w Hw. destruct (Hlay w Hw). done.
  - rewrite Hg1. apply lookup_insert_eq.
Qed.

End Statements.

(** C9: the revert [down] means, with the object kind written after
    [DROP] (the text of lines 25-35 with [DROP INDEX IF EXISTS]), can be
    run twice: the string parses, its statements succeed, and run again on
    the result they succeed and change nothing.  The drops of lines 26-29
    are guarded by [IF EXISTS], so a revert called twice does not fail at
    them; the spec's test expecting a [StatementError] there does not
    describe this code. *)
Theorem down_repaired_twice st :
  down_ready st ->
  exists ss st1, parse_script down_sql_drop_index = Ok ss /\
    exec_stmts st ss = Ok st1 /\ exec_stmts st1 ss = Ok st1.
Proof.
  intros H. exists (down_drops_intended ++ down_creates)%list.
  assert (Hp : parse_script down_sql_drop_index = Ok (down_drops_intended ++ down_creates)%list)
    by (vm_compute; reflexivity).
  rewrite Hp. unfold down_drops_intended. rewrite down_creates_swaps.
  destruct (swaps_down_twice st index_swaps) as (st1 & H1 & H2); [apply index_swaps_disjoint | exact H |].
  eauto.
Qed.

(** C12: lines 5-7 alone doom the query: whatever statements follow them
    in the string, PostgreSQL rejects it with the syntax error at [//].
    The defect does not depend on the statements of lines 8-20. *)
Theorem up_comment_lines_reject s :
  parse_script (up_comment_lines ++ s) = Err (SyntaxError (TOp "//")).
Proof.
  apply (parse_script_op_first _ _ (tail (significant (run_from LStart up_comment_lines).2) ++
                                    significant (lex_from (run_from LStart up_comment_lines).1 s))).
  unfold lex. rewrite lex_from_app, significant_app.
  destruct (significant (run_from LStart up_comment_lines).2) as [|t ts] eqn:E;
    [vm_compute in E; discriminate|].
  assert (t = TOp "//") as -> by (vm_compute in E; congruence). reflexivity.
Qed.

(** C13: written as SQL comments, lines 5-7 are transparent: put before
    any string, they leave its parse as it is.  So the repaired [up]
    parses exactly as lines 8-21 would alone. *)
Theorem up_comment_lines_sql_transparent s :
  parse_script (up_comment_lines_sql ++ s) = parse_script s.
Proof.
  apply parse_script_significant. unfold lex at 1. rewrite lex_from_app, significant_app.
  destruct (run_from LStart up_comment_lines_sql) as [st out] eqn:E.
  vm_compute in E. injection E as <- <-. cbn [fst snd]. rewrite significant_space. reflexivity.
Qed.

(** ** Witnesses: the theorems at the schema [up] was written for *)

Lemma legacy_db_swap_ready : Forall (swap_ready (rels legacy_db)) index_swaps.
Proof. apply swaps_readyb_sound. vm_compute. reflexivity. Qed.

Lemma legacy_db_layout : legacy_layout legacy_db.
Proof. repeat constructor; vm_compute; reflexivity. Qed.

Lemma up_statements_effect_witness :
  exists st', gucs legacy_db !! "enable_nestloop" = Some (GBool true) /\
    exec_stmts legacy_db up_statements = Ok st' /\
    gucs st' = <["enable_nestloop" := GBool false]> (gucs legacy_db) /\
    Forall (fun w => rels st' !! sw_old w = None /\
      rels st' !! sw_new w = Some (match rels legacy_db !! sw_new w with Some x => x | None => partial_index w end))
      index_swaps /\
    (forall k, ~ In k (swap_names index_swaps) -> rels st' !! k = rels legacy_db !! k).
Proof.
  destruct (exec_stmts legacy_db up_statements) as [st'|e] eqn:E; [|vm_compute in E; discriminate].
  exists st'. split; [reflexivity|]. split; [done|].
  exact (up_statements_effect legacy_db st' true eq_refl E).
Defined.

Lemma up_statements_idempotent_witness :
  exists st', exec_stmts legacy_db up_statements = Ok st' /\ exec_stmts st' up_statements = Ok st'.
Proof.
  destruct (exec_stmts legacy_db up_statements) as [st'|e] eqn:E; [|vm_compute in E; discriminate].
  exists st'. split; [done|]. exact (up_statements_idempotent legacy_db st' E).
Defined.

Lemma up_down_roundtrip_witness :
  legacy_layout legacy_db /\ Forall (swap_ready (rels legacy_db)) index_swaps /\
  gucs legacy_db !! "enable_nestloop" = Some (GBool true) /\
  exists st', exec_stmts legacy_db (up_statements ++ down_drops_intended ++ down_creates) = Ok st' /\
    rels st' = rels legacy_db /\ gucs st' !! "enable_nestloop" = Some (GBool false).
Proof.
  split; [exact legacy_db_layout|]. split; [exact legacy_db_swap_ready|]. split; [reflexivity|].
  exact (up_down_roundtrip legacy_db true legacy_db_layout legacy_db_swap_ready eq_refl).
Defined.

Lemma down_repaired_twice_witness :
  down_ready legacy_db /\
  exists ss st1, parse_script down_sql_drop_index = Ok ss /\
    exec_stmts legacy_db ss = Ok st1 /\ exec_stmts st1 ss = Ok st1.
Proof.
  assert (H : down_ready legacy_db).
  { apply List.Forall_forall. intros w Hw. unfold index_swaps in Hw. simpl in Hw.
    repeat (destruct Hw as [<-|Hw];
      [split; [eexists; split; [vm_compute; reflexivity | simpl; tauto] |
               intros c; vm_compute; discriminate] |]).
    done. }
  split; [exact H|]. exact (down_repaired_twice legacy_db H).
Defined.

End ImprovedIndexes.
