(* ===== verification/Pool.v ===== *)
(** * A pool of connections to one database

    Spec sections 4.1, 5 and 9: the executor may pool connections; the
    schema is shared by every connection, while a plain [SET] changes a
    setting of the session of one connection only, and keeps it after the
    transaction commits, for every later query on that connection, until
    it is set again; a [SET LOCAL] lasts until the commit, and [RESET]
    goes back to the server's default.  A connection that was never used
    has the server's defaults.

    [pool] holds the shared catalog, the server's default settings and
    the settings of each connection that changed them.  A query on
    connection [c] runs on the database as that session sees it
    ([session_db]) with the PostgreSQL executor of QueryRunner.v, and a
    successful one writes back the catalog and the session's settings
    ([commit]); a failed one changes nothing (its transaction is rolled
    back, and with it its [SET]s).  [pool_runner c] is TypeORM's query
    runner bound to connection [c], an instance of the [QueryRunner]
    interface that keeps its law ([pool_query_spec]), so the theorems of
    the migration proved against the interface hold for it.

    A query is its own transaction here, as PostgreSQL runs a query
    string sent outside a transaction block; TypeORM's migration
    transaction ends later, with the same effect on the settings at its
    commit when no other query of it sets them.

    [nestloop_scope] is the scope of line 8's [SET enable_nestloop TO
    off]: on the migration's connection the setting stays off after the
    commit. *)

From Stdlib Require Import String List Lia.
From stdpp Require Import base list gmap strings.
From S2P Require Import Prelude SqlLexer SqlParser Catalog IndexSwap QueryRunner ImprovedIndexes.
Import ListNotations.
Import Scan Grammar Exec Swap Interfaces ImprovedIndexes.

Module Pool.

Local Open Scope string_scope.

Record pool := mk_pool {
  catalog : gmap string relation;
  defaults : gmap string guc_value;
  conns : gmap nat (gmap string guc_value)
}.

(** The settings of connection [c]'s session. *)
Definition session_gucs (p : pool) (c : nat) : gmap string guc_value :=
  default (defaults p) (conns p !! c).

(** The database as the session of connection [c] sees it when a query
    starts: its settings, the server's defaults as reset values, no
    transaction open. *)
Definition session_db (p : pool) (c : nat) : db :=
  mk_db (catalog p) (session_gucs p c) (defaults p) ∅.

(** A committed transaction of connection [c] ([pg_query] has ended it):
    the catalog is shared, the settings are the session's. *)
Definition commit (p : pool) (c : nat) (st : db) : pool :=
  mk_pool (rels st) (defaults p) (<[c := gucs st]> (conns p)).

(** [queryRunner.query(s)] on connection [c]. *)
Definition pool_query (c : nat) (s : string) (p : pool) : result query_error pool :=
  match pg_query s (session_db p c) with
  | Ok st => Ok (commit p c st)
  | Err e => Err e
  end.

#[export] Instance pool_runner (c : nat) : QueryRunner pool := {| query := pool_query c |}.

(** The schema [up] was written for, behind a pool whose connections have
    not set anything yet; used by the witnesses. *)
Definition legacy_pool : pool := mk_pool (rels legacy_db) (gucs legacy_db) ∅.

(** ** The interface's law *)

#[export] Instance pool_query_spec (c : nat) : QueryRunnerSpec pool (H := pool_runner c).
Proof.
  constructor. intros s e p He. simpl. unfold pool_query.
  pose proof (query_parse_first (H := pg_runner) s e (session_db p c) He) as E. simpl in E.
  by rewrite E.
Qed.

(** ** Sessions *)

Lemma session_gucs_commit p c st c' :
  session_gucs (commit p c st) c' = if decide (c' = c) then gucs st else session_gucs p c'.
Proof.
  unfold session_gucs, commit. simpl. case_decide as Hc.
  - subst. by rewrite lookup_insert_eq.
  - by rewrite lookup_insert_ne by congruence.
Qed.

(** On a string that parses, a query on connection [c] is the execution of
    its statements in that session, committed. *)
Lemma pool_query_parsed c s ss p :
  parse_script s = Ok ss ->
  pool_query c s p =
    match exec_stmts (session_db p c) ss with
    | Ok st => Ok (commit p c (commit_xact st))
    | Err e => Err (QueryExecError e)
    end.
Proof.
  intros Hs. unfold pool_query. rewrite (pg_query_parsed _ _ _ Hs).
  by destruct (exec_stmts _ _).
Qed.

(** C11: the scope of line 8's [SET].  When the statements of [up]
    (lines 8-20, as the string with SQL comments parses) commit on
    connection [c] of a pool, the indexes change for every connection, and
    [enable_nestloop] is off in [c]'s session after the commit, for every
    later query on [c]: line 8 is a plain [SET], not [SET LOCAL], and no
    [RESET] follows it, so the connection goes back to the pool with the
    setting off. *)
Theorem nestloop_scope p c p' b :
  session_gucs p c !! "enable_nestloop" = Some (GBool b) ->
  pool_query c up_sql_sql_comments p = Ok p' ->
  catalog p' = swaps_rels (catalog p) index_swaps /\
  session_gucs p' c = <["enable_nestloop" := GBool false]> (session_gucs p c).
Proof.
  intros Hb. assert (Hp : parse_script up_sql_sql_comments = Ok up_statements) by (vm_compute; reflexivity).
  rewrite (pool_query_parsed _ _ _ _ Hp).
  destruct (exec_stmts (session_db p c) up_statements) as [st|e] eqn:E; [|done].
  intros [= <-]. destruct (exec_up_statements_gucs (session_db p c) st b Hb E) as (Hg & Hl & Hr).
  split; [exact Hr|]. rewrite session_gucs_commit, decide_True by done.
  unfold commit_xact. cbn [gucs locals]. rewrite Hl. cbn [session_db locals]. rewrite delete_empty, map_empty_union. exact Hg.
Qed.

Lemma nestloop_scope_witness :
  exists p', session_gucs legacy_pool 0 !! "enable_nestloop" = Some (GBool true) /\
    pool_query 0 up_sql_sql_comments legacy_pool = Ok p' /\
    catalog p' = swaps_rels (catalog legacy_pool) index_swaps /\
    session_gucs p' 0 = <["enable_nestloop" := GBool false]> (session_gucs legacy_pool 0).
Proof.
  destruct (pool_query 0 up_sql_sql_comments legacy_pool) as [p'|e] eqn:E;
    [|vm_compute in E; discriminate].
  exists p'. split; [reflexivity|]. split; [done|].
  exact (nestloop_scope legacy_pool 0 p' true eq_refl E).
Defined.

End Pool.
