(* ===== verification/MigrationRunner.v ===== *)
(** * The migration runner's ledger

    Modelled from the spec (sections 3-5): the runner is TypeORM library
    code, not part of this repository.  A history is the list of
    migrations in identifier order; the ledger records for each one
    whether it is applied or pending.  [apply_next] runs [up] of the first
    pending unit and marks it applied when [up] succeeds; [revert_last]
    runs [down] of the last applied unit and marks it pending when [down]
    succeeds; a failing [up] or [down] leaves database and ledger as they
    were (the runner wraps it in a transaction).  [runner_step] is the
    step relation and [reachable] its closure from the all-pending ledger.
    [run_pending] is [migration:run], applying units until none is left
    or one fails, and [run_migrations] adds the transaction mode.
    TypeORM takes a migration's identifier from the last 13 characters of
    its class name ([migration_timestamp]). *)

From Stdlib Require Import String Ascii List Lia NArith.
From stdpp Require Import base list relations.
From S2P Require Import Prelude SqlLexer SqlParser Catalog QueryRunner ImprovedIndexes.
Import ListNotations.
Import Scan Grammar Exec Interfaces ImprovedIndexes.

Module Runner.

Inductive status := Pending | Applied.

#[export] Instance status_eq_dec : EqDecision status.
Proof. solve_decision. Defined.

Inductive runner_error :=
| NothingPending
| NothingApplied
| UpFailed (e : query_error)
| DownFailed (e : query_error).

Section Ledger.
Context {St : Type}.

Record ledger_state := mk_ls {
  ls_db : St;
  ls_status : list status
}.

(** The first pending unit. *)
Fixpoint first_pending (l : list status) : option nat :=
  match l with
  | [] => None
  | Pending :: _ => Some 0
  | Applied :: l' => S <$> first_pending l'
  end.

(** The last applied unit. *)
Fixpoint last_applied (l : list status) : option nat :=
  match l with
  | [] => None
  | s :: l' =>
      match last_applied l' with
      | Some i => Some (S i)
      | None => match s with Applied => Some 0 | Pending => None end
      end
  end.

Context (history : list (MigrationInterface St)).

Definition apply_next (s : ledger_state) : result runner_error ledger_state :=
  match first_pending (ls_status s) with
  | None => Err NothingPending
  | Some i =>
      match history !! i with
      | None => Err NothingPending
      | Some m =>
          match mi_up m (ls_db s) with
          | Ok db' => Ok (mk_ls db' (<[i := Applied]> (ls_status s)))
          | Err e => Err (UpFailed e)
          end
      end
  end.

Definition revert_last (s : ledger_state) : result runner_error ledger_state :=
  match last_applied (ls_status s) with
  | None => Err NothingApplied
  | Some i =>
      match history !! i with
      | None => Err NothingApplied
      | Some m =>
          match mi_down m (ls_db s) with
          | Ok db' => Ok (mk_ls db' (<[i := Pending]> (ls_status s)))
          | Err e => Err (DownFailed e)
          end
      end
  end.

Inductive runner_step : ledger_state -> ledger_state -> Prop :=
| step_apply s s' : apply_next s = Ok s' -> runner_step s s'
| step_revert s s' : revert_last s = Ok s' -> runner_step s s'.

Definition init_ledger (db0 : St) : ledger_state :=
  mk_ls db0 (replicate (length history) Pending).

Inductive reachable (db0 : St) : ledger_state -> Prop :=
| reach_init : reachable db0 (init_ledger db0)
| reach_step s s' : reachable db0 s -> runner_step s s' -> reachable db0 s'.

(** The ledger's shape: the first [k] units applied, the others pending. *)
Definition prefix_ledger (k : nat) : list status :=
  replicate k Applied ++ replicate (length history - k) Pending.

(** The runner's [migration:run]: apply pending units in order until none
    is left or one fails.  The result is the ledger reached and the error
    that stopped the run, if any; the failing unit's own transaction is
    rolled back, the units applied before it stay applied.  Each round
    applies one unit, so [length history] rounds are enough
    ([run_pending_all_applied]). *)
Fixpoint run_pending (fuel : nat) (s : ledger_state) : ledger_state * option runner_error :=
  match fuel with
  | O => (s, None)
  | S fuel' =>
      match first_pending (ls_status s) with
      | None => (s, None)
      | Some _ =>
          match apply_next s with
          | Ok s' => run_pending fuel' s'
          | Err e => (s, Some e)
          end
      end
  end.

(** The run's transaction mode: [TxAll] wraps the whole run in one
    transaction, so a failure rolls back the units applied before it as
    well; [TxEach] gives every unit its own transaction. *)
Inductive transaction_mode := TxAll | TxEach.

Definition run_migrations (mode : transaction_mode) (s : ledger_state)
    : ledger_state * option runner_error :=
  match run_pending (length history) s, mode with
  | (_, Some e), TxAll => (s, Some e)
  | r, _ => r
  end.

End Ledger.

(** ** Identifiers *)

Definition digit_value (c : ascii) : option N :=
  if Scan.is_digit c then Some (N.of_nat (nat_of_ascii c - 48)) else None.

(** JavaScript's [parseInt(s, 10)]: the leading decimal digits. *)
Fixpoint parse_digits (acc : option N) (s : string) : option N :=
  match s with
  | EmptyString => acc
  | String c s' =>
      match digit_value c with
      | Some d => parse_digits (Some (10 * default 0%N acc + d)%N) s'
      | None => acc
      end
  end.

(** [parseInt(name.substr(-13), 10)]; a missing or zero value is refused. *)
Definition migration_timestamp {St} (m : MigrationInterface St) : option N :=
  let n := mi_name m in
  match parse_digits None (substring (String.length n - 13) 13 n) with
  | Some 0%N | None => None
  | Some t => Some t
  end.

(** A migration whose [up] and [down] change nothing; the witnesses put it
    before this one in a history. *)
Definition noop_migration {St : Type} : MigrationInterface St :=
  mk_migration "noop1600000000000" Ok Ok.

(** ** The ledger's invariant *)

Section LedgerLemmas.
Context {St : Type} (history : list (MigrationInterface St)).

Lemma first_pending_prefix k m :
  first_pending (replicate k Applied ++ replicate m Pending) =
  match m with 0 => None | S _ => Some k end.
Proof. induction k as [|k IH]; simpl; [by destruct m | rewrite IH; by destruct m]. Qed.

Lemma last_applied_pending m : last_applied (replicate m Pending) = None.
Proof. induction m as [|m IH]; simpl; [done | by rewrite IH]. Qed.

Lemma last_applied_prefix k m :
  last_applied (replicate k Applied ++ replicate m Pending) =
  match k with 0 => None | S k' => Some k' end.
Proof.
  induction k as [|k IH]; simpl; [apply last_applied_pending|]. rewrite IH. by destruct k.
Qed.

Lemma prefix_insert_apply k m :
  <[k := Applied]> (replicate k Applied ++ replicate (S m) Pending) =
  replicate (S k) Applied ++ replicate m Pending.
Proof. induction k as [|k IH]; simpl; [done | f_equal; exact IH]. Qed.

Lemma prefix_insert_revert k m :
  <[k := Pending]> (replicate (S k) Applied ++ replicate m Pending) =
  replicate k Applied ++ replicate (S m) Pending.
Proof. induction k as [|k IH]; simpl; [done | f_equal; exact IH]. Qed.

Lemma lookup_prefix_ledger k j :
  k <= length history ->
  prefix_ledger history k !! j =
  if decide (j < k) then Some Applied
  else if decide (j < length history) then Some Pending else None.
Proof.
  intros Hk. unfold prefix_ledger. destruct (decide (j < k)).
  - rewrite lookup_app_l by (rewrite length_replicate; lia). apply lookup_replicate_2. lia.
  - rewrite lookup_app_r by (rewrite length_replicate; lia). rewrite length_replicate.
    destruct (decide (j < length history)).
    + apply lookup_replicate_2. lia.
    + apply lookup_replicate_None. lia.
Qed.

Lemma init_ledger_prefix db0 : ls_status (init_ledger history db0) = prefix_ledger history 0.
Proof. unfold prefix_ledger, init_ledger. simpl. by rewrite Nat.sub_0_r. Qed.

(** One step from a prefix ledger: apply the unit at [k], or revert the one before. *)
Lemma runner_step_prefix k s s' :
  k <= length history -> ls_status s = prefix_ledger history k -> runner_step history s s' ->
  (exists m, history !! k = Some m /\ is_ok (mi_up m (ls_db s)) = true /\
     ls_status s' = prefix_ledger history (S k) /\ S k <= length history) \/
  (exists k', k = S k' /\ ls_status s' = prefix_ledger history k').
Proof.
  intros Hk Hs Hstep. unfold prefix_ledger in *.
  destruct Hstep as [s s' Ha | s s' Hv].
  - left. unfold apply_next in Ha. rewrite Hs, first_pending_prefix in Ha.
    destruct (length history - k) as [|m] eqn:Em; [done|].
    destruct (history !! k) as [mig|] eqn:Eh; [|done].
    destruct (mi_up mig (ls_db s)) as [d|e] eqn:Eu; [|done]. injection Ha as <-. cbn [ls_status].
    exists mig. rewrite Eu. split; [done|]. split; [done|]. split; [|lia].
    etransitivity; [apply (prefix_insert_apply k m)|]. repeat f_equal. lia.
  - right. unfold revert_last in Hv. rewrite Hs, last_applied_prefix in Hv.
    destruct k as [|k']; [done|].
    destruct (history !! k') as [mig|]; [|done].
    destruct (mi_down mig (ls_db s)) as [d|e]; [|done]. injection Hv as <-. cbn [ls_status].
    exists k'. split; [done|]. etransitivity; [apply prefix_insert_revert|]. repeat f_equal. lia.
Qed.

(** The ledger is always a prefix of applied units followed by pending ones. *)
Lemma reachable_prefix db0 s :
  reachable history db0 s -> exists k, k <= length history /\ ls_status s = prefix_ledger history k.
Proof.
  induction 1 as [|s s' Hr IH Hstep].
  - exists 0. split; [lia | apply init_ledger_prefix].
  - destruct IH as (k & Hk & Hs).
    destruct (runner_step_prefix k s s' Hk Hs Hstep) as [(m & _ & _ & Hs' & Hk') | (k' & -> & Hs')].
    + exists (S k). auto.
    + exists k'. split; [lia | done].
Qed.

(** The spec's ordering property: a unit is applied only when every
    earlier unit is. *)
Lemma reachable_ordered db0 s i j :
  reachable history db0 s -> i < j -> ls_status s !! j = Some Applied -> ls_status s !! i = Some Applied.
Proof.
  intros Hr Hij Hj. destruct (reachable_prefix db0 s Hr) as (k & Hk & Hs).
  rewrite Hs, lookup_prefix_ledger in * by done.
  destruct (decide (j < k)); [|destruct (decide (j < length history)); done].
  by rewrite decide_True by lia.
Qed.

(** A unit whose [up] never succeeds is never applied, and neither is any
    later unit: the ledger's applied prefix stops before it. *)
Lemma reachable_blocked db0 s p m :
  history !! p = Some m -> (forall st, is_ok (mi_up m st) = false) ->
  reachable history db0 s -> exists k, k <= p /\ ls_status s = prefix_ledger history k.
Proof.
  intros Hp Hm. pose proof (lookup_lt_Some _ _ _ Hp) as Hlen.
  induction 1 as [|s s' Hr IH Hstep].
  - exists 0. split; [lia | apply init_ledger_prefix].
  - destruct IH as (k & Hkp & Hs).
    destruct (runner_step_prefix k s s' ltac:(lia) Hs Hstep)
      as [(m' & Hm' & Hok & Hs' & _) | (k' & -> & Hs')].
    + exists (S k). split; [|done]. destruct (decide (k = p)) as [->|]; [|lia].
      rewrite Hp in Hm'. injection Hm' as <-. by rewrite Hm in Hok.
    + exists k'. split; [lia | done].
Qed.

(** [apply_next] on a prefix ledger runs [up] of unit [k]. *)
Lemma apply_next_prefix s k m :
  ls_status s = prefix_ledger history k -> history !! k = Some m ->
  apply_next history s =
    match mi_up m (ls_db s) with
    | Ok d => Ok (mk_ls d (prefix_ledger history (S k)))
    | Err e => Err (UpFailed e)
    end.
Proof.
  intros Hs Hm. pose proof (lookup_lt_Some _ _ _ Hm) as Hk.
  unfold apply_next, prefix_ledger in *. rewrite Hs, first_pending_prefix.
  destruct (length history - k) as [|n] eqn:En; [lia|]. rewrite Hm.
  destruct (mi_up m (ls_db s)); [|done]. do 2 f_equal.
  rewrite prefix_insert_apply. repeat f_equal. lia.
Qed.

Lemma run_pending_step fuel s :
  run_pending history (S fuel) s =
    match first_pending (ls_status s) with
    | None => (s, None)
    | Some _ => match apply_next history s with Ok s' => run_pending history fuel s' | Err e => (s, Some e) end
    end.
Proof. reflexivity. Qed.

(** [revert_last] on a prefix ledger runs [down] of unit [k], the last applied. *)
Lemma revert_last_prefix s k m :
  ls_status s = prefix_ledger history (S k) -> history !! k = Some m ->
  revert_last history s =
    match mi_down m (ls_db s) with
    | Ok d => Ok (mk_ls d (prefix_ledger history k))
    | Err e => Err (DownFailed e)
    end.
Proof.
  intros Hs Hm. pose proof (lookup_lt_Some _ _ _ Hm) as Hk.
  unfold revert_last, prefix_ledger in *. rewrite Hs, last_applied_prefix, Hm.
  destruct (mi_down m (ls_db s)); [|done]. do 2 f_equal.
  rewrite prefix_insert_revert. repeat f_equal. lia.
Qed.

(** From the prefix ledger [k], when the [down] of every unit below [k]
    succeeds, the runner reverts them all, last first. *)
Lemma revert_all_prefix k s :
  ls_status s = prefix_ledger history k -> k <= length history ->
  (forall i m st, i < k -> history !! i = Some m -> is_ok (mi_down m st) = true) ->
  exists s', rtc (runner_step history) s s' /\ ls_status s' = replicate (length history) Pending.
Proof.
  revert s. induction k as [|k IH]; intros s Hs Hk Hok.
  - exists s. split; [done|]. rewrite Hs. unfold prefix_ledger. simpl. by rewrite Nat.sub_0_r.
  - destruct (lookup_lt_is_Some_2 history k ltac:(lia)) as [m Hm].
    pose proof (Hok k m (ls_db s) ltac:(lia) Hm) as Hd.
    destruct (mi_down m (ls_db s)) as [d|] eqn:Ed; [|done].
    destruct (IH (mk_ls d (prefix_ledger history k))) as (s' & Hrun & Hs'); [done | lia | |].
    + intros i m' st Hi. apply Hok. lia.
    + exists s'. split; [|done]. eapply rtc_l; [|exact Hrun].
      apply step_revert. by rewrite (revert_last_prefix s k m Hs Hm), Ed.
Qed.

(** The run only takes runner steps. *)
Lemma run_pending_reachable db0 fuel s :
  reachable history db0 s -> reachable history db0 (run_pending history fuel s).1.
Proof.
  revert s. induction fuel as [|fuel IH]; intros s Hr; [done|]. rewrite run_pending_step.
  destruct (first_pending _); [|done].
  destruct (apply_next history s) as [s'|] eqn:E; [|done].
  apply IH. eapply reach_step; [exact Hr | by constructor].
Qed.

(** From the prefix ledger [k], when every [up] from unit [k] to unit
    [p - 1] succeeds and unit [p] fails with [e] whatever the database,
    the run stops at [p] with [e]. *)
Lemma run_pending_blocked fuel s k p m e :
  ls_status s = prefix_ledger history k -> k <= p -> p - k < fuel ->
  history !! p = Some m -> (forall st, mi_up m st = Err e) ->
  (forall i m' st, k <= i < p -> history !! i = Some m' -> is_ok (mi_up m' st) = true) ->
  exists s', run_pending history fuel s = (s', Some (UpFailed e)) /\
    ls_status s' = prefix_ledger history p.
Proof.
  intros Hs Hkp Hf Hp Hm Hok. pose proof (lookup_lt_Some _ _ _ Hp) as Hlen.
  revert s k Hs Hkp Hf Hok. induction fuel as [|fuel IH]; intros s k Hs Hkp Hf Hok; [lia|].
  rewrite run_pending_step. rewrite Hs. unfold prefix_ledger. rewrite first_pending_prefix.
  destruct (length history - k) as [|n] eqn:En; [lia|].
  destruct (lookup_lt_is_Some_2 history k ltac:(lia)) as [mk Hmk].
  rewrite (apply_next_prefix s k mk Hs Hmk).
  destruct (decide (k = p)) as [->|Hne].
  - rewrite Hp in Hmk. injection Hmk as <-. rewrite Hm. eauto.
  - pose proof (Hok k mk (ls_db s) ltac:(lia) Hmk) as Hk_ok.
    destruct (mi_up mk (ls_db s)) as [d|]; [|done].
    apply (IH _ (S k)); [done | lia | lia |]. intros i m' st Hi. apply Hok. lia.
Qed.

(** From the prefix ledger [k], when every [up] succeeds, [length history - k]
    rounds apply every unit. *)
Lemma run_pending_complete fuel s k :
  ls_status s = prefix_ledger history k -> k <= length history -> length history - k <= fuel ->
  (forall i m st, history !! i = Some m -> is_ok (mi_up m st) = true) ->
  exists s', run_pending history fuel s = (s', None) /\
    ls_status s' = replicate (length history) Applied.
Proof.
  intros Hs Hk Hf Hok. revert s k Hs Hk Hf. induction fuel as [|fuel IH]; intros s k Hs Hk Hf.
  - exists s. split; [done|]. rewrite Hs. unfold prefix_ledger.
    replace k with (length history) by lia. by rewrite Nat.sub_diag, app_nil_r.
  - rewrite run_pending_step, Hs. unfold prefix_ledger at 1. rewrite first_pending_prefix.
    destruct (length history - k) as [|n] eqn:En.
    + exists s. split; [done|]. rewrite Hs. unfold prefix_ledger.
      replace k with (length history) by lia. by rewrite Nat.sub_diag, app_nil_r.
    + destruct (lookup_lt_is_Some_2 history k ltac:(lia)) as [mk Hmk].
      rewrite (apply_next_prefix s k mk Hs Hmk).
      specialize (Hok k mk (ls_db s) Hmk). destruct (mi_up mk (ls_db s)) as [d|]; [|done].
      apply (IH _ (S k)); [done | lia | lia].
Qed.

(** Progress of the runner: when every unit's [up] succeeds, the
    run from the all-pending ledger applies every unit of the history in
    [length history] rounds and reports no error. *)
Theorem run_pending_all_applied db0 :
  (forall i m st, history !! i = Some m -> is_ok (mi_up m st) = true) ->
  exists s', run_pending history (length history) (init_ledger history db0) = (s', None) /\
    ls_status s' = replicate (length history) Applied.
Proof. intros Hok. apply (run_pending_complete _ _ 0); [apply init_ledger_prefix | lia | lia | done]. Qed.

End LedgerLemmas.

(** ** Identifier bounds *)

Lemma digit_value_bound c d : digit_value c = Some d -> (d < 10)%N.
Proof.
  unfold digit_value, Scan.is_digit, Scan.in_range. destruct (Nat.leb 48 _ && Nat.leb _ 57) eqn:E; [|done].
  intros [= <-]. apply andb_prop in E as [_ E]. apply Nat.leb_le in E. lia.
Qed.

(** The digits read after an accumulator below [B] stay below [B] times
    ten to the number of characters read. *)
Lemma parse_digits_bound B acc s t :
  (1 <= B)%N -> (forall a, acc = Some a -> a < B)%N ->
  parse_digits acc s = Some t -> (t < B * 10 ^ N.of_nat (String.length s))%N.
Proof.
  revert B acc. induction s as [|c s IH]; intros B acc HB Hacc; simpl.
  - intros ->. specialize (Hacc t eq_refl). lia.
  - rewrite Nat2N.inj_succ, N.pow_succ_r'.
    destruct (digit_value c) as [d|] eqn:Ed.
    + intros Ht. apply digit_value_bound in Ed.
      assert (Hb : (t < (B * 10) * 10 ^ N.of_nat (String.length s))%N).
      { apply (IH _ (Some (10 * default 0 acc + d)%N)); [lia | | exact Ht].
        intros a [= <-]. destruct acc as [a0|]; simpl; [specialize (Hacc a0 eq_refl)|]; lia. }
      lia.
    + intros ->. specialize (Hacc t eq_refl).
      assert (10 ^ N.of_nat (String.length s) <> 0)%N by (apply N.pow_nonzero; lia). nia.
Qed.

(** The identifier TypeORM reads from a class name has at most 13
    digits, so it is below 10^13, and below 2^53: JavaScript's [parseInt]
    returns it exactly, and identifiers compare as the digits do. *)
Theorem migration_timestamp_bound {St} (m : MigrationInterface St) t :
  migration_timestamp m = Some t -> (t < 10 ^ 13 /\ t < 2 ^ 53)%N.
Proof.
  unfold migration_timestamp. intros Ht.
  assert (Hb : (t < 1 * 10 ^ N.of_nat 13)%N).
  { assert (Hp : forall u, parse_digits None (substring (String.length (mi_name m) - 13) 13 (mi_name m))
                              = Some u -> (u < 1 * 10 ^ N.of_nat 13)%N).
    { intros u Hu. apply (parse_digits_bound 1) in Hu; [|lia | done].
      eapply N.lt_le_trans; [exact Hu|]. apply N.mul_le_mono_l, N.pow_le_mono_r; [lia|].
      pose proof (substring_length (String.length (mi_name m) - 13) 13 (mi_name m)). lia. }
    destruct (parse_digits _ _) as [[|u]|] eqn:E; try done. injection Ht as <-. by apply Hp. }
  simpl in Hb. split; [exact Hb|]. eapply N.lt_trans; [exact Hb|]. reflexivity.
Qed.

(** ** This migration in a history *)

Section ThisMigration.
Context {St : Type} `{QueryRunnerSpec St}.

(** The [up] of this class fails on every state, with the parser's error at [//]. *)
Lemma productSearchGinIndexes_up_fails (st : St) :
  mi_up productSearchGinIndexes1679950645254 st = Err (QueryParseError (SyntaxError (TOp "//"))).
Proof. exact (query_parse_first _ _ st parse_up_sql). Qed.

(** On a history containing this class at [p], every reachable ledger has
    applied at most the units before [p]. *)
Lemma productSearchGinIndexes_blocked history p db0 s :
  history !! p = Some productSearchGinIndexes1679950645254 -> reachable history db0 s ->
  exists k, k <= p /\ ls_status s = prefix_ledger history k.
Proof.
  intros Hp Hr. apply (reachable_blocked history db0 s p _ Hp); [|done].
  intros st. by rewrite productSearchGinIndexes_up_fails.
Qed.

Lemma prefix_ledger_pending_from (history : list (MigrationInterface St)) k p j :
  k <= p -> p <= j < length history -> prefix_ledger history k !! j = Some Pending.
Proof.
  intros Hk Hj. rewrite lookup_prefix_ledger by lia.
  rewrite decide_False by lia. by rewrite decide_True by lia.
Qed.

(** C3: in any history run by the runner, from any database, the unit
    [productSearchGinIndexes1679950645254] is never recorded as applied,
    and no unit after it either: its [up] always fails, so the runner can
    never get past it. *)
Theorem productSearchGinIndexes_never_applied history p db0 s :
  history !! p = Some productSearchGinIndexes1679950645254 ->
  reachable history db0 s ->
  forall j, p <= j < length history -> ls_status s !! j = Some Pending.
Proof.
  intros Hp Hr j Hj. destruct (productSearchGinIndexes_blocked history p db0 s Hp Hr) as (k & Hkp & ->).
  by apply (prefix_ledger_pending_from history k p j).
Qed.

(** C8: [migration:run] on any history in which every unit before this
    one applies: the run fails with the parser's error at [//].  With one
    transaction for the run the whole run is rolled back and the ledger is
    all pending; with a transaction per unit the units before it stay
    applied and this unit and every later one stay pending. *)
Theorem productSearchGinIndexes_run_fails history p db0 :
  history !! p = Some productSearchGinIndexes1679950645254 ->
  (forall i m st, i < p -> history !! i = Some m -> is_ok (mi_up m st) = true) ->
  run_migrations history TxAll (init_ledger history db0) =
    (init_ledger history db0, Some (UpFailed (QueryParseError (SyntaxError (TOp "//"))))) /\
  exists s', run_migrations history TxEach (init_ledger history db0) =
    (s', Some (UpFailed (QueryParseError (SyntaxError (TOp "//"))))) /\
    ls_status s' = prefix_ledger history p.
Proof.
  intros Hp Hok. pose proof (lookup_lt_Some _ _ _ Hp) as Hlen.
  destruct (run_pending_blocked history (length history) (init_ledger history db0) 0 p _
              (QueryParseError (SyntaxError (TOp "//"))) (init_ledger_prefix history db0) ltac:(lia) ltac:(lia) Hp) as (s' & Hrun & Hs').
  - exact productSearchGinIndexes_up_fails.
  - intros i m st Hi. apply Hok. lia.
  - unfold run_migrations. rewrite Hrun. eauto.
Qed.

(** C10: the history can always be rolled back.  From every ledger the
    runner can reach on a history containing this migration, when the
    [down] of every unit before it succeeds, the runner can revert every
    applied unit and reach the all-pending ledger: the failing [down] of
    this class is never needed, since the class is never applied. *)
Theorem productSearchGinIndexes_revertible history p db0 s :
  history !! p = Some productSearchGinIndexes1679950645254 ->
  (forall i m st, i < p -> history !! i = Some m -> is_ok (mi_down m st) = true) ->
  reachable history db0 s ->
  exists s', rtc (runner_step history) s s' /\ ls_status s' = replicate (length history) Pending.
Proof.
  intros Hp Hok Hr. pose proof (lookup_lt_Some _ _ _ Hp) as Hlen.
  destruct (productSearchGinIndexes_blocked history p db0 s Hp Hr) as (k & Hkp & Hs).
  apply (revert_all_prefix history k); [done | lia |]. intros i m st Hi. apply Hok. lia.
Qed.

End ThisMigration.

(** The history [noop; this migration]: after the runner applied [noop],
    this migration is still pending. *)
Lemma productSearchGinIndexes_never_applied_witness :
  [noop_migration; productSearchGinIndexes1679950645254 (St := db)] !! 1 =
    Some (productSearchGinIndexes1679950645254 (St := db)) /\
  reachable [noop_migration; productSearchGinIndexes1679950645254 (St := db)] empty_db
    (mk_ls empty_db [Applied; Pending]) /\
  ls_status (mk_ls empty_db [Applied; Pending]) !! 1 = Some Pending.
Proof.
  assert (Hr : reachable [noop_migration; productSearchGinIndexes1679950645254 (St := db)] empty_db
                 (mk_ls empty_db [Applied; Pending])).
  { eapply reach_step; [apply reach_init | apply step_apply; reflexivity]. }
  split; [reflexivity|]. split; [exact Hr|].
  apply (productSearchGinIndexes_never_applied
           [noop_migration; productSearchGinIndexes1679950645254 (St := db)] 1 empty_db
           (mk_ls empty_db [Applied; Pending])); [reflexivity | exact Hr | simpl; lia].
Defined.

(** Two units that change nothing: the run applies both. *)
Lemma run_pending_all_applied_witness :
  (forall i m st, [noop_migration; noop_migration] !! i = Some m ->
     is_ok (mi_up (St := db) m st) = true) /\
  exists s', run_pending [noop_migration; noop_migration] 2
               (init_ledger [noop_migration; noop_migration] empty_db) = (s', None) /\
    ls_status s' = replicate 2 Applied.
Proof.
  assert (Hok : forall i m st, [noop_migration; noop_migration] !! i = Some m ->
                  is_ok (mi_up (St := db) m st) = true).
  { intros [|[|i]] m st Hm; simpl in Hm; try discriminate; injection Hm as <-; reflexivity. }
  split; [exact Hok|]. exact (run_pending_all_applied [noop_migration; noop_migration] empty_db Hok).
Defined.

(** The history [noop; this migration] run on the empty database. *)
Lemma productSearchGinIndexes_run_fails_witness :
  [noop_migration; productSearchGinIndexes1679950645254 (St := db)] !! 1 =
    Some (productSearchGinIndexes1679950645254 (St := db)) /\
  (forall i m st, i < 1 -> [noop_migration; productSearchGinIndexes1679950645254 (St := db)] !! i = Some m ->
     is_ok (mi_up m st) = true) /\
  run_migrations [noop_migration; productSearchGinIndexes1679950645254 (St := db)] TxAll
    (init_ledger [noop_migration; productSearchGinIndexes1679950645254 (St := db)] empty_db) =
    (init_ledger [noop_migration; productSearchGinIndexes1679950645254 (St := db)] empty_db,
     Some (UpFailed (QueryParseError (SyntaxError (TOp "//"))))).
Proof.
  assert (Hok : forall i m st, i < 1 ->
            [noop_migration; productSearchGinIndexes1679950645254 (St := db)] !! i = Some m ->
            is_ok (mi_up m st) = true).
  { intros [|i] m st Hi Hm; [injection Hm as <-; reflexivity | lia]. }
  split; [reflexivity|]. split; [exact Hok|].
  exact (proj1 (productSearchGinIndexes_run_fails
    [noop_migration; productSearchGinIndexes1679950645254 (St := db)] 1 empty_db eq_refl Hok)).
Defined.

(** The class name of this migration gives 1679950645254. *)
Lemma migration_timestamp_bound_witness :
  migration_timestamp (productSearchGinIndexes1679950645254 (St := db)) = Some 1679950645254%N /\
  (1679950645254 < 10 ^ 13 /\ 1679950645254 < 2 ^ 53)%N.
Proof.
  split; [reflexivity|]. apply (migration_timestamp_bound (productSearchGinIndexes1679950645254 (St := db))).
  reflexivity.
Defined.

(** The history [noop; this migration] after [noop] was applied: one
    revert brings it back to all pending. *)
Lemma productSearchGinIndexes_revertible_witness :
  [noop_migration; productSearchGinIndexes1679950645254 (St := db)] !! 1 =
    Some (productSearchGinIndexes1679950645254 (St := db)) /\
  (forall i m st, i < 1 -> [noop_migration; productSearchGinIndexes1679950645254 (St := db)] !! i = Some m ->
     is_ok (mi_down m st) = true) /\
  reachable [noop_migration; productSearchGinIndexes1679950645254 (St := db)] empty_db
    (mk_ls empty_db [Applied; Pending]) /\
  exists s', rtc (runner_step [noop_migration; productSearchGinIndexes1679950645254 (St := db)])
               (mk_ls empty_db [Applied; Pending]) s' /\
    ls_status s' = replicate 2 Pending.
Proof.
  assert (Hok : forall i m st, i < 1 ->
            [noop_migration; productSearchGinIndexes1679950645254 (St := db)] !! i = Some m ->
            is_ok (mi_down m st) = true).
  { intros [|i] m st Hi Hm; [injection Hm as <-; reflexivity | lia]. }
  assert (Hr : reachable [noop_migration; productSearchGinIndexes1679950645254 (St := db)] empty_db
                 (mk_ls empty_db [Applied; Pending])).
  { eapply reach_step; [apply reach_init | apply step_apply; reflexivity]. }
  split; [reflexivity|]. split; [exact Hok|]. split; [exact Hr|].
  exact (productSearchGinIndexes_revertible
           [noop_migration; productSearchGinIndexes1679950645254 (St := db)] 1 empty_db _ eq_refl Hok Hr).
Defined.

End Runner.
