(* ===== verification/LedgerSpec.v ===== *)
(** * The migration unit's contract, and the runner as its refinement

    The spec (sections 3, 4.1 and 7) describes a migration unit
    abstractly: it is [pending] or [applied]; [apply] on a pending unit
    runs the forward script and marks it applied, [revert] on an applied
    unit runs the backward script and marks it pending; [apply] on an
    applied unit or [revert] on a pending one is an order violation; a
    failing script surfaces its error verbatim and leaves the status as it
    was ([unit_apply], [unit_revert]).  Over a history the spec allows
    applying a unit only when every earlier unit is applied, and reverting
    one only when every later unit is pending ([spec_step]).

    [runner_step_spec] shows that the runner of MigrationRunner.v, which
    picks the first pending unit ([first_pending]) or the last applied one
    ([last_applied]), takes exactly the steps of this abstract machine: it
    implements the contract and is no more restrictive than it, and
    [reachable_spec] that both reach the same ledgers from the
    all-pending one ([spec_init]).  So what Runner.v proves of the
    ledgers the runner reaches (in particular that this migration is never
    applied) holds of every ledger the spec's machine reaches. *)

From Stdlib Require Import String List Lia.
From stdpp Require Import base list relations.
From S2P Require Import Prelude SqlLexer SqlParser Catalog QueryRunner MigrationRunner.
Import ListNotations.
Import Scan Grammar Exec Interfaces Runner.

Module LedgerSpec.

#[local] Set Warnings "-clear-no-such-hyp".

(** Spec section 7: a statement error, or a call out of order. *)
Inductive unit_error :=
| OrderViolation
| StatementError (e : query_error).

Section Contract.
Context {St : Type}.

(** [apply(executor)] of spec section 4.1, on the unit's status. *)
Definition unit_apply (m : MigrationInterface St) (st : St) (u : status)
    : result unit_error (St * status) :=
  match u with
  | Applied => Err OrderViolation
  | Pending =>
      match mi_up m st with
      | Ok st' => Ok (st', Applied)
      | Err e => Err (StatementError e)
      end
  end.

(** [revert(executor)] of spec section 4.1. *)
Definition unit_revert (m : MigrationInterface St) (st : St) (u : status)
    : result unit_error (St * status) :=
  match u with
  | Pending => Err OrderViolation
  | Applied =>
      match mi_down m st with
      | Ok st' => Ok (st', Pending)
      | Err e => Err (StatementError e)
      end
  end.

Context (history : list (MigrationInterface St)).

(** The abstract runner: apply unit [i] when every earlier unit is
    applied, revert unit [i] when every later unit is pending, each by the
    unit's contract. *)
Inductive spec_step : St * list status -> St * list status -> Prop :=
| spec_apply i m st l u st' u' :
    history !! i = Some m -> l !! i = Some u ->
    (forall j, j < i -> l !! j = Some Applied) ->
    unit_apply m st u = Ok (st', u') ->
    spec_step (st, l) (st', <[i := u']> l)
| spec_revert i m st l u st' u' :
    history !! i = Some m -> l !! i = Some u ->
    (forall j v, i < j -> l !! j = Some v -> v = Pending) ->
    unit_revert m st u = Ok (st', u') ->
    spec_step (st, l) (st', <[i := u']> l).

(** The spec machine starts with every unit pending. *)
Definition spec_init (db0 : St) : St * list status := (db0, replicate (length history) Pending).

End Contract.

(** ** The runner's choice of unit *)

Lemma first_pending_Some l i :
  first_pending l = Some i <-> l !! i = Some Pending /\ (forall j, j < i -> l !! j = Some Applied).
Proof.
  revert i. induction l as [|u l IH]; intros i; [split; [done | by intros []]|].
  destruct u, i as [|i]; simpl.
  - split; [intros _; split; [done | intros; lia] | done].
  - split; [done|]. intros [_ H]. by specialize (H 0 ltac:(lia)).
  - split; [by destruct (first_pending l) | by intros []].
  - transitivity (first_pending l = Some i).
    { destruct (first_pending l); simpl; split; congruence. }
    rewrite IH. split; intros [Hi Hj]; split; try done.
    + intros [|j] Hji; simpl; [done|]. apply Hj. lia.
    + intros j Hji. apply (Hj (S j)). lia.
Qed.

Lemma last_applied_lookup l i : last_applied l = Some i -> l !! i = Some Applied.
Proof.
  revert i. induction l as [|u l IH]; intros i; simpl; [done|].
  destruct (last_applied l) as [i'|] eqn:E; [intros [= <-]; by apply IH|].
  destruct u; [done | by intros [= <-]].
Qed.

Lemma last_applied_None l : last_applied l = None <-> forall j v, l !! j = Some v -> v = Pending.
Proof.
  induction l as [|u l IH]; simpl; [split; [done | done]|].
  destruct (last_applied l) as [i|] eqn:E.
  - split; [done|]. intros H. apply last_applied_lookup in E. by specialize (H (S i) Applied E).
  - pose proof (proj1 IH eq_refl) as Hl. destruct u; split.
    + intros _ [|j] v Hv; simpl in Hv; [by injection Hv | by apply (Hl j)].
    + done.
    + done.
    + intros H. by specialize (H 0 Applied eq_refl).
Qed.

Lemma last_applied_Some l i :
  last_applied l = Some i <->
  l !! i = Some Applied /\ (forall j v, i < j -> l !! j = Some v -> v = Pending).
Proof.
  revert i. induction l as [|u l IH]; intros i; simpl; [split; [done | by intros []]|].
  destruct (last_applied l) as [i'|] eqn:E.
  - pose proof (proj1 (IH i') eq_refl) as [Hi' Hlater]. split.
    + intros [= <-]. simpl. split; [done|]. intros [|j] v Hj Hv; [lia|]. apply (Hlater j v); [lia | done].
    + intros [Hi Hj]. destruct i as [|i].
      * exfalso. by specialize (Hj (S i') Applied ltac:(lia) Hi').
      * assert (E' : Some i' = Some i).
        { apply IH. split; [done|]. intros j v Hij Hv. apply (Hj (S j) v); [lia | done]. }
        congruence.
  - pose proof (proj1 (last_applied_None l) E) as Hl. destruct u; split.
    + done.
    + intros [Hi _]. destruct i as [|i]; simpl in Hi; [done|]. by apply Hl in Hi.
    + intros [= <-]. split; [done|]. intros [|j] v Hj Hv; [lia|]. by apply (Hl j).
    + intros [Hi _]. destruct i as [|i]; [done|]. simpl in Hi. by apply Hl in Hi.
Qed.

Lemma unit_apply_Ok {St} (m : MigrationInterface St) st u st' u' :
  unit_apply m st u = Ok (st', u') <-> u = Pending /\ u' = Applied /\ mi_up m st = Ok st'.
Proof. unfold unit_apply. destruct u; [destruct (mi_up m st)|]; naive_solver. Qed.

Lemma unit_revert_Ok {St} (m : MigrationInterface St) st u st' u' :
  unit_revert m st u = Ok (st', u') <-> u = Applied /\ u' = Pending /\ mi_down m st = Ok st'.
Proof. unfold unit_revert. destruct u; [|destruct (mi_down m st)]; naive_solver. Qed.

(** ** Refinement *)

Section Refinement.
Context {St : Type} (history : list (MigrationInterface St)).

(** The runner refines the spec's abstract machine, and conversely:
    a runner step (apply the first pending unit, or revert the last
    applied one) is a step of the abstract machine on the database and
    the ledger, and every step the abstract machine allows is a runner
    step.  In particular the runner never applies an applied unit, never
    reverts a pending one, and changes the ledger only through a unit
    whose script succeeded. *)
Theorem runner_step_spec s s' :
  runner_step history s s' <-> spec_step history (ls_db s, ls_status s) (ls_db s', ls_status s').
Proof.
  split.
  - intros [s0 s1 Ha | s0 s1 Hv].
    + unfold apply_next in Ha.
      destruct (first_pending (ls_status s0)) as [i|] eqn:Ef; [|done].
      destruct (history !! i) as [m|] eqn:Eh; [|done].
      destruct (mi_up m (ls_db s0)) as [d|e] eqn:Eu; [|done]. injection Ha as <-. simpl.
      apply first_pending_Some in Ef as [Hi Hj].
      eapply spec_apply; [exact Eh | exact Hi | exact Hj | by apply unit_apply_Ok].
    + unfold revert_last in Hv.
      destruct (last_applied (ls_status s0)) as [i|] eqn:Ef; [|done].
      destruct (history !! i) as [m|] eqn:Eh; [|done].
      destruct (mi_down m (ls_db s0)) as [d|e] eqn:Eu; [|done]. injection Hv as <-. simpl.
      apply last_applied_Some in Ef as [Hi Hj].
      eapply spec_revert; [exact Eh | exact Hi | exact Hj | by apply unit_revert_Ok].
  - destruct s as [d l], s' as [d' l']. simpl.
    intros Hs. inversion Hs as [i m st l0 u st' u' Hm Hi Hj Hu | i m st l0 u st' u' Hm Hi Hj Hu]; subst.
    + apply unit_apply_Ok in Hu as (-> & -> & Hup). apply step_apply. unfold apply_next. simpl.
      by rewrite (proj2 (first_pending_Some l i) (conj Hi Hj)), Hm, Hup.
    + apply unit_revert_Ok in Hu as (-> & -> & Hdown). apply step_revert. unfold revert_last. simpl.
      by rewrite (proj2 (last_applied_Some l i) (conj Hi Hj)), Hm, Hdown.
Qed.

(** The ledgers the runner reaches are exactly those the spec machine reaches. *)
Lemma reachable_spec db0 s :
  reachable history db0 s <-> rtc (spec_step history) (spec_init history db0) (ls_db s, ls_status s).
Proof.
  split.
  - induction 1 as [|s s' Hr IH Hstep]; [done|].
    eapply rtc_r; [exact IH|]. by apply runner_step_spec.
  - assert (H : forall y, rtc (spec_step history) (spec_init history db0) y ->
                  reachable history db0 (mk_ls y.1 y.2)).
    { apply (rtc_ind_r (fun y => reachable history db0 (mk_ls y.1 y.2))); [apply reach_init|].
      intros y z _ Hyz IH. eapply reach_step; [exact IH|]. destruct y, z. by apply runner_step_spec. }
    intros Hs. destruct s. exact (H _ Hs).
Qed.

End Refinement.

End LedgerSpec.
